(** * Track_Hacker: click capture, enrichment and reporting (src/index.js)

    A shallow embedding of the request handlers of [src/index.js] and of
    the pieces of the JavaScript runtime, of Express and of the SQL store
    they rely on, followed by the properties of the specification.

    Conventions.
    - A JavaScript string is a [string]: one character stands for one
      code unit (the model carries the code units below 256).
    - A JavaScript number is an IEEE-754 binary64 value, [spec_float]
      with precision 53 and maximal exponent 1024.
    - [undefined] is [None] where a property may be missing.
    - Code that may throw returns a [completion]; store operations run in
      the monad [M], which threads the store and lets an exception leave
      the store as it was when the exception was raised. *)

From Stdlib Require Import ZArith List String Ascii Bool Lia DecimalString.
From Stdlib Require Import Floats.SpecFloat.
Import ListNotations.
Set Warnings "-register-all".
Local Open Scope string_scope.
Local Open Scope list_scope.

(* ===================================================================== *)
(** * The JavaScript substrate *)
(* ===================================================================== *)

Module JS.

(** ** Numbers *)

Definition number := spec_float.

Definition prec : Z := 53.
Definition emax : Z := 1024.

Definition NaN : number := S754_nan.
Definition Infinity : number := S754_infinity false.

(** The number denoted by an integer literal of the source. *)
Definition lit (z : Z) : number := binary_normalize prec emax z 0 false.

(** [Number.isFinite(x)] for a value that is a number. *)
Definition Number_isFinite (x : number) : bool :=
  match x with
  | S754_zero _ | S754_finite _ _ _ => true
  | S754_infinity _ | S754_nan => false
  end.

(** The relational operators [<], [<=], [>] on numbers. *)
Definition lt (x y : number) : bool := SFltb x y.
Definition le (x y : number) : bool := SFleb x y.
Definition gt (x y : number) : bool := SFltb y x.

(** ToBoolean on a number: [+0], [-0] and [NaN] are falsy. *)
Definition number_truthy (x : number) : bool :=
  match x with
  | S754_zero _ | S754_nan => false
  | _ => true
  end.

(** ** Strings *)

(** ToBoolean on a string: only the empty string is falsy. *)
Definition string_truthy (s : string) : bool :=
  match s with EmptyString => false | String _ _ => true end.

(** [Array.prototype.join] once the elements have been converted. *)
Definition join (sep : string) (parts : list string) : string :=
  String.concat sep parts.

(** ** StringToNumber: [Number(s)] for a string [s]

    StringNumericLiteral of ECMAScript: optional white space around an
    optional literal, which is a signed decimal literal ([Infinity],
    digits with an optional fraction and exponent) or an unsigned
    hexadecimal, octal or binary integer.  The mathematical value is
    rounded to nearest, ties to even. *)

Definition is_white (c : ascii) : bool :=
  let n := nat_of_ascii c in
  (Nat.eqb n 9 || Nat.eqb n 10 || Nat.eqb n 11 || Nat.eqb n 12 ||
   Nat.eqb n 13 || Nat.eqb n 32 || Nat.eqb n 160)%bool.

Fixpoint drop_white (l : list ascii) : list ascii :=
  match l with
  | c :: l' => if is_white c then drop_white l' else l
  | [] => []
  end.

Definition trim (l : list ascii) : list ascii :=
  rev (drop_white (rev (drop_white l))).

(** Value of a digit in a base up to 16, if the character is one. *)
Definition digit_val (c : ascii) : option Z :=
  let n := Z.of_nat (nat_of_ascii c) in
  if ((48 <=? n) && (n <=? 57))%bool%Z then Some (n - 48)%Z
  else if ((97 <=? n) && (n <=? 102))%bool%Z then Some (n - 87)%Z
  else if ((65 <=? n) && (n <=? 70))%bool%Z then Some (n - 55)%Z
  else None.

Definition digit_in (base : Z) (c : ascii) : option Z :=
  match digit_val c with
  | Some d => if (d <? base)%Z then Some d else None
  | None => None
  end.

(** Longest prefix of digits of the base: number of digits read, their
    value continuing [acc], and the rest of the input. *)
Fixpoint read_digits (base : Z) (acc : Z) (l : list ascii) : nat * Z * list ascii :=
  match l with
  | c :: l' =>
      match digit_in base c with
      | Some d =>
          let '(n, v, rest) := read_digits base (acc * base + d)%Z l' in
          (S n, v, rest)
      | None => (O, acc, l)
      end
  | [] => (O, acc, [])
  end.

(** [m * 10^e] rounded to binary64, for [m >= 0], with the sign [neg]. *)
Definition of_decimal (neg : bool) (m : Z) (e : Z) : number :=
  match m with
  | Z0 => S754_zero neg
  | Zneg _ => NaN
  | Zpos _ =>
      if (0 <=? e)%Z then
        match (m * 10 ^ e)%Z with
        | Zpos p => binary_round prec emax neg p 0
        | _ => NaN
        end
      else
        let '(q, e', l) := SFdiv_core_binary prec emax m 0 (10 ^ (- e))%Z 0 in
        binary_round_aux prec emax neg q e' l
  end.

(** An unsigned integer literal in the given base: all of [l] must be
    digits and there must be at least one. *)
Definition radix_literal (base : Z) (l : list ascii) : number :=
  match read_digits base 0 l with
  | (S _, v, []) => of_decimal false v 0
  | _ => NaN
  end.

(** The optional exponent part; [None] when the rest is not one. *)
Definition exponent_part (l : list ascii) : option Z :=
  match l with
  | [] => Some 0%Z
  | c :: l' =>
      if (Ascii.eqb c "e" || Ascii.eqb c "E")%bool then
        let '(neg, l'') :=
          match l' with
          | s :: t =>
              if Ascii.eqb s "-" then (true, t)
              else if Ascii.eqb s "+" then (false, t)
              else (false, l')
          | [] => (false, l')
          end in
        match read_digits 10 0 l'' with
        | (S _, v, []) => Some (if neg then (- v)%Z else v)
        | _ => None
        end
      else None
  end.

(** StrUnsignedDecimalLiteral, with the sign already read. *)
Definition unsigned_decimal (neg : bool) (l : list ascii) : number :=
  if list_eq_dec ascii_dec l (list_ascii_of_string "Infinity")
  then S754_infinity neg
  else
    let '(ni, vi, r1) := read_digits 10 0 l in
    let '(nf, vf, r2) :=
      match r1 with
      | c :: t => if Ascii.eqb c "." then read_digits 10 vi t else (O, vi, r1)
      | [] => (O, vi, r1)
      end in
    match (ni + nf)%nat with
    | O => NaN
    | S _ =>
        match exponent_part r2 with
        | Some x => of_decimal neg vf (x - Z.of_nat nf)
        | None => NaN
        end
    end.

Definition StringToNumber (s : string) : number :=
  match trim (list_ascii_of_string s) with
  | [] => S754_zero false
  | c :: l =>
      let prefixed (a b : ascii) :=
        match l with
        | x :: _ => (Ascii.eqb c "0" && (Ascii.eqb x a || Ascii.eqb x b))%bool
        | [] => false
        end in
      if prefixed "x"%char "X"%char then radix_literal 16 (tl l)
      else if prefixed "o"%char "O"%char then radix_literal 8 (tl l)
      else if prefixed "b"%char "B"%char then radix_literal 2 (tl l)
      else if Ascii.eqb c "-" then unsigned_decimal true l
      else if Ascii.eqb c "+" then unsigned_decimal false l
      else unsigned_decimal false (c :: l)
  end.

End JS.


(* ===================================================================== *)
(** * Completions and exceptions *)
(* ===================================================================== *)

Inductive exn : Type :=
  | TypeError (msg : string)
  | SqliteError (msg : string).

(** The outcome of evaluating code that may throw. *)
Inductive completion (A : Type) : Type :=
  | Normal (a : A)
  | Throw (e : exn).
Arguments Normal {A} a.
Arguments Throw {A} e.

Definition cbind {A B} (c : completion A) (k : A -> completion B) : completion B :=
  match c with
  | Normal a => k a
  | Throw e => Throw e
  end.

Definition returns {A} (c : completion A) : Prop := exists a, c = Normal a.

(** [xs.map(f)] where [f] may throw: left to right, stopping at the
    first exception. *)
Fixpoint cmap {A B} (f : A -> completion B) (l : list A) : completion (list B) :=
  match l with
  | [] => Normal []
  | x :: l' => cbind (f x) (fun y => cbind (cmap f l') (fun ys => Normal (y :: ys)))
  end.

(* ===================================================================== *)
(** * Values *)
(* ===================================================================== *)

(** The own properties of an object, one binding for each key, in
    insertion order. *)
Fixpoint assoc {V} (k : string) (l : list (string * V)) : option V :=
  match l with
  | [] => None
  | (k', v) :: l' => if String.eqb k k' then Some v else assoc k l'
  end.

Definition has_own {V} (k : string) (l : list (string * V)) : bool :=
  match assoc k l with Some _ => true | None => false end.

Definition cannot_convert : exn :=
  TypeError "Cannot convert object to primitive value".

(** ** Values of [req.query]

    What the query-string parser leaves under a key: a string, an array
    or a nested object ([undefined] when the key is missing). *)
Inductive qval : Type :=
  | QStr (s : string)
  | QArr (l : list qval)
  | QObj (l : list (string * qval)).

(** [String(v)].  An array is joined with commas.  An object converts
    through [Object.prototype.toString] unless it has an own property
    [toString]: that property is never callable here, [valueOf] returns
    the object itself, and the conversion throws. *)
Fixpoint q_ToString (v : qval) : completion string :=
  match v with
  | QStr s => Normal s
  | QArr l => cbind (cmap q_ToString l) (fun parts => Normal (JS.join "," parts))
  | QObj l => if has_own "toString" l then Throw cannot_convert
              else Normal "[object Object]"
  end.

(** [Number(v)]: a string is parsed; an array or an object is first
    converted to a primitive, which is its string. *)
Definition q_ToNumber (v : qval) : completion JS.number :=
  match v with
  | QStr s => Normal (JS.StringToNumber s)
  | _ => cbind (q_ToString v) (fun s => Normal (JS.StringToNumber s))
  end.

Definition q_truthy (v : option qval) : bool :=
  match v with
  | None => false
  | Some (QStr s) => JS.string_truthy s
  | Some _ => true
  end.

(** [Array.isArray(x) ? x[0] : x] for a query parameter [x]. *)
Definition first_if_array (x : option qval) : option qval :=
  match x with
  | Some (QArr l) => hd_error l
  | _ => x
  end.

(** ** JavaScript values met in a JSON body and in a JSON response *)
Inductive value : Type :=
  | VUndefined
  | VNull
  | VBool (b : bool)
  | VNum (n : JS.number)
  | VStr (s : string)
  | VArr (l : list value)
  | VObj (l : list (string * value)).

(** [o.k] for an object given by its own properties; none of the names
    read by the handlers is inherited from a prototype. *)
Definition prop (o : list (string * value)) (k : string) : value :=
  match assoc k o with Some v => v | None => VUndefined end.

(** ToBoolean. *)
Definition truthy (v : value) : bool :=
  match v with
  | VUndefined | VNull => false
  | VBool b => b
  | VNum n => JS.number_truthy n
  | VStr s => JS.string_truthy s
  | VArr _ | VObj _ => true
  end.

Definition is_number (v : value) : bool :=
  match v with VNum _ => true | _ => false end.

Definition is_string (v : value) : bool :=
  match v with VStr _ => true | _ => false end.

Definition is_array (v : value) : bool :=
  match v with VArr _ => true | _ => false end.

(* ===================================================================== *)
(** * The click store *)
(* ===================================================================== *)

(** A column of the table [clicks]: name and declared type. *)
Definition column : Type := string * string.

(** The columns of [CREATE TABLE IF NOT EXISTS clicks]. *)
Definition clicks_columns : list column :=
  [ ("id", "TEXT"); ("created_at", "TEXT"); ("ip", "TEXT");
    ("ip_chain", "TEXT"); ("user_agent", "TEXT");
    ("accept_language", "TEXT"); ("referrer", "TEXT"); ("dest_url", "TEXT");
    ("approx_country", "TEXT"); ("approx_region", "TEXT");
    ("approx_city", "TEXT"); ("approx_lat", "REAL"); ("approx_lon", "REAL");
    ("approx_accuracy_km", "INTEGER");
    ("precise_lat", "REAL"); ("precise_lon", "REAL");
    ("precise_accuracy_m", "INTEGER"); ("precise_timestamp", "TEXT");
    ("consented", "INTEGER");
    ("device_platform", "TEXT"); ("device_vendor", "TEXT");
    ("device_language", "TEXT"); ("device_languages", "TEXT");
    ("device_timezone", "TEXT"); ("device_hardware_concurrency", "INTEGER");
    ("device_memory_gb", "REAL"); ("device_screen_w", "INTEGER");
    ("device_screen_h", "INTEGER"); ("device_color_depth", "INTEGER");
    ("do_not_track", "INTEGER") ].

(** The columns the startup migration adds when they are missing, in the
    order of the [addCol] calls. *)
Definition added_columns : list column :=
  [ ("ip_chain", "TEXT"); ("accept_language", "TEXT");
    ("device_platform", "TEXT"); ("device_vendor", "TEXT");
    ("device_language", "TEXT"); ("device_languages", "TEXT");
    ("device_timezone", "TEXT"); ("device_hardware_concurrency", "INTEGER");
    ("device_memory_gb", "REAL"); ("device_screen_w", "INTEGER");
    ("device_screen_h", "INTEGER"); ("device_color_depth", "INTEGER");
    ("do_not_track", "INTEGER") ].

(** A row of [clicks].  A nullable column holds [None] for NULL. *)
Record Row : Type := mkRow {
  id : string;
  created_at : string;
  ip : option string;
  ip_chain : option string;
  user_agent : option string;
  accept_language : option string;
  referrer : option string;
  dest_url : option string;
  approx_country : option string;
  approx_region : option string;
  approx_city : option string;
  approx_lat : option JS.number;
  approx_lon : option JS.number;
  approx_accuracy_km : option JS.number;
  precise_lat : option JS.number;
  precise_lon : option JS.number;
  precise_accuracy_m : option JS.number;
  precise_timestamp : option string;
  consented : option JS.number;
  device_platform : option string;
  device_vendor : option string;
  device_language : option string;
  device_languages : option string;
  device_timezone : option string;
  device_hardware_concurrency : option JS.number;
  device_memory_gb : option JS.number;
  device_screen_w : option JS.number;
  device_screen_h : option JS.number;
  device_color_depth : option JS.number;
  do_not_track : option JS.number
}.

(** The object bound to [insertClickStmt]: the fourteen named
    parameters, with the types the capture handler gives them. *)
Record ClickRecord : Type := mkClick {
  r_id : string;
  r_created_at : string;
  r_ip : string;
  r_ip_chain : string;
  r_user_agent : string;
  r_accept_language : string;
  r_referrer : string;
  r_dest_url : option string;
  r_approx_country : option string;
  r_approx_region : option string;
  r_approx_city : option string;
  r_approx_lat : option JS.number;
  r_approx_lon : option JS.number;
  r_approx_accuracy_km : option JS.number
}.

(** The object bound to [updateGeoStmt]: [@id] and the sixteen columns
    of the SET clause. *)
Record GeoParams : Type := mkGeo {
  g_id : string;
  g_precise_lat : option JS.number;
  g_precise_lon : option JS.number;
  g_precise_accuracy_m : option JS.number;
  g_precise_timestamp : string;
  g_consented : JS.number;
  g_device_platform : option string;
  g_device_vendor : option string;
  g_device_language : option string;
  g_device_languages : option string;
  g_device_timezone : option string;
  g_device_hardware_concurrency : option JS.number;
  g_device_memory_gb : option JS.number;
  g_device_screen_w : option JS.number;
  g_device_screen_h : option JS.number;
  g_device_color_depth : option JS.number;
  g_do_not_track : JS.number
}.

(** The statements the program sends to the engine. *)
Inductive db_call : Type :=
  | CallTableInfo
  | CallAlter (name type : string)
  | CallInsert (r : ClickRecord)
  | CallUpdate (p : GeoParams)
  | CallSelectLast
  | CallSelectLogs (limit offset : JS.number).

(** The store: the physical columns of [clicks], its rows, and the
    journal of the statements executed so far, oldest first. *)
Record Store : Type := mkStore {
  schema : list column;
  rows : list Row;
  journal : list db_call
}.

Definition column_names (st : Store) : list string := map fst (schema st).

Definition logged (c : db_call) (st : Store) : Store :=
  mkStore (schema st) (rows st) (journal st ++ [c]).

(** What lies outside the program: the random identifier and the clock
    of the current request, the IP lookup table, the engine's reading
    queries and its failures (a locked or read-only file, a full disk). *)
Record GeoHit : Type := mkGeoHit {
  geo_country : option string;
  geo_region : option (string + list string);
  geo_city : option string;
  geo_ll : option (JS.number * JS.number);
  geo_accuracy : option JS.number
}.

Record World : Type := mkWorld {
  random_id : string;
  now_iso : string;
  geoip_lookup : string -> completion (option GeoHit);
  sql_fault : db_call -> bool;
  select_last : list Row -> option Row;
  select_logs : JS.number -> JS.number -> list Row -> list Row
}.

(** ** The store monad *)

Definition M (A : Type) : Type := Store -> completion A * Store.

Definition ret {A} (a : A) : M A := fun st => (Normal a, st).

Definition bind {A B} (c : M A) (k : A -> M B) : M B :=
  fun st =>
    match c st with
    | (Normal a, st') => k a st'
    | (Throw e, st') => (Throw e, st')
    end.

Definition throw {A} (e : exn) : M A := fun st => (Throw e, st).

(** [try { c } catch (_) { h }] *)
Definition try_catch {A} (c : M A) (h : exn -> M A) : M A :=
  fun st =>
    match c st with
    | (Normal a, st') => (Normal a, st')
    | (Throw e, st') => h e st'
    end.

Definition lift {A} (c : completion A) : M A := fun st => (c, st).

Declare Scope store_scope.
Delimit Scope store_scope with store.
Notation "x <- c ;; k" := (bind c (fun x => k))
  (at level 61, c at next level, right associativity) : store_scope.
Notation "c ;;; k" := (bind c (fun _ => k))
  (at level 61, right associativity) : store_scope.
Local Open Scope store_scope.

(** ** Statements *)

Definition engine_error : exn := SqliteError "engine failure".

(** [db.prepare(`PRAGMA table_info(clicks)`).all().map(r => r.name)] *)
Definition table_info (w : World) : M (list string) :=
  fun st =>
    let st' := logged CallTableInfo st in
    if sql_fault w CallTableInfo then (Throw engine_error, st')
    else (Normal (column_names st), st').

(** [db.exec(`ALTER TABLE clicks ADD COLUMN ${name} ${type}`)]: the
    engine refuses a column that exists. *)
Definition alter_add_column (w : World) (name type : string) : M unit :=
  fun st =>
    let st' := logged (CallAlter name type) st in
    if sql_fault w (CallAlter name type) then (Throw engine_error, st')
    else if existsb (String.eqb name) (column_names st)
    then (Throw (SqliteError "duplicate column name"), st')
    else (Normal tt, mkStore (schema st ++ [(name, type)]) (rows st) (journal st')).

(** The row an INSERT of the fourteen columns creates: the other
    columns take their defaults, NULL, and 0 for [consented]. *)
Definition row_of_record (r : ClickRecord) : Row :=
  {| id := r_id r; created_at := r_created_at r;
     ip := Some (r_ip r); ip_chain := Some (r_ip_chain r);
     user_agent := Some (r_user_agent r);
     accept_language := Some (r_accept_language r);
     referrer := Some (r_referrer r); dest_url := r_dest_url r;
     approx_country := r_approx_country r;
     approx_region := r_approx_region r;
     approx_city := r_approx_city r;
     approx_lat := r_approx_lat r; approx_lon := r_approx_lon r;
     approx_accuracy_km := r_approx_accuracy_km r;
     precise_lat := None; precise_lon := None; precise_accuracy_m := None;
     precise_timestamp := None; consented := Some (JS.lit 0);
     device_platform := None; device_vendor := None;
     device_language := None; device_languages := None;
     device_timezone := None; device_hardware_concurrency := None;
     device_memory_gb := None; device_screen_w := None;
     device_screen_h := None; device_color_depth := None;
     do_not_track := None |}.

Definition has_id (i : string) (t : list Row) : bool :=
  existsb (fun r => String.eqb (id r) i) t.

(** [insertClickStmt.run(record)]: [id] is the primary key. *)
Definition insertClickStmt_run (w : World) (r : ClickRecord) : M unit :=
  fun st =>
    let st' := logged (CallInsert r) st in
    if sql_fault w (CallInsert r) then (Throw engine_error, st')
    else if has_id (r_id r) (rows st)
    then (Throw (SqliteError "UNIQUE constraint failed: clicks.id"), st')
    else (Normal tt, mkStore (schema st) (rows st ++ [row_of_record r]) (journal st')).

(** The SET clause of [updateGeoStmt] on one row. *)
Definition set_geo (p : GeoParams) (r : Row) : Row :=
  {| id := id r; created_at := created_at r;
     ip := ip r; ip_chain := ip_chain r; user_agent := user_agent r;
     accept_language := accept_language r; referrer := referrer r;
     dest_url := dest_url r;
     approx_country := approx_country r; approx_region := approx_region r;
     approx_city := approx_city r;
     approx_lat := approx_lat r; approx_lon := approx_lon r;
     approx_accuracy_km := approx_accuracy_km r;
     precise_lat := g_precise_lat p; precise_lon := g_precise_lon p;
     precise_accuracy_m := g_precise_accuracy_m p;
     precise_timestamp := Some (g_precise_timestamp p);
     consented := Some (g_consented p);
     device_platform := g_device_platform p;
     device_vendor := g_device_vendor p;
     device_language := g_device_language p;
     device_languages := g_device_languages p;
     device_timezone := g_device_timezone p;
     device_hardware_concurrency := g_device_hardware_concurrency p;
     device_memory_gb := g_device_memory_gb p;
     device_screen_w := g_device_screen_w p;
     device_screen_h := g_device_screen_h p;
     device_color_depth := g_device_color_depth p;
     do_not_track := Some (g_do_not_track p) |}.

(** [UPDATE clicks SET ... WHERE id = @id] over the table. *)
Definition update_where_id (p : GeoParams) (t : list Row) : list Row :=
  map (fun r => if String.eqb (id r) (g_id p) then set_geo p r else r) t.

(** The number of rows the WHERE clause selects (the [changes] of the
    result of [run]). *)
Definition matching (i : string) (t : list Row) : nat :=
  List.length (filter (fun r => String.eqb (id r) i) t).

(** [updateGeoStmt.run(params)] *)
Definition updateGeoStmt_run (w : World) (p : GeoParams) : M nat :=
  fun st =>
    let st' := logged (CallUpdate p) st in
    if sql_fault w (CallUpdate p) then (Throw engine_error, st')
    else (Normal (matching (g_id p) (rows st)),
          mkStore (schema st) (update_where_id p (rows st)) (journal st')).

(** The two reading queries: the engine chooses and orders the rows. *)
Definition query_last (w : World) : M (option Row) :=
  fun st =>
    let st' := logged CallSelectLast st in
    if sql_fault w CallSelectLast then (Throw engine_error, st')
    else (Normal (select_last w (rows st)), st').

Definition query_logs (w : World) (limit offset : JS.number) : M (list Row) :=
  fun st =>
    let st' := logged (CallSelectLogs limit offset) st in
    if sql_fault w (CallSelectLogs limit offset) then (Throw engine_error, st')
    else (Normal (select_logs w limit offset (rows st)), st').

(** ** Startup migration (index.js, lines 83-99) *)

(** [addCol(name, type)] with the set [existingCols] read before the
    first addition. *)
Definition addCol (w : World) (existingCols : list string) (c : column) : M unit :=
  if negb (existsb (String.eqb (fst c)) existingCols)
  then alter_add_column w (fst c) (snd c)
  else ret tt.

(** The calls [addCol(...)] in sequence. *)
Fixpoint addCols (w : World) (existingCols : list string) (cs : list column) : M unit :=
  match cs with
  | [] => ret tt
  | c :: cs' => addCol w existingCols c ;;; addCols w existingCols cs'
  end.

Definition migrate (w : World) : M unit :=
  try_catch
    (existingCols <- table_info w ;;
     addCols w existingCols added_columns)
    (fun _ => ret tt).

(* ===================================================================== *)
(** * The runtime and the configuration *)
(* ===================================================================== *)

(** What [new URL(input)] yields when it does not throw: the fields the
    program reads. *)
Record URL : Type := mkURL {
  protocol : string;       (* parsed.protocol *)
  href : string            (* parsed.toString() *)
}.

(** The parts of the platform the handlers call and the process
    environment read at startup.  [url_parse] is [None] where
    [new URL] throws; [number_to_string] is [String(x)] on a number. *)
Record Runtime : Type := mkRuntime {
  number_to_string : JS.number -> string;
  url_parse : string -> option URL;
  env_REDIRECT_DEFAULT : option string;
  env_ADMIN_KEY : option string
}.

(** [process.env.NAME || fallback] *)
Definition env_or (v : option string) (fallback : string) : string :=
  match v with
  | Some s => if JS.string_truthy s then s else fallback
  | None => fallback
  end.

Definition REDIRECT_DEFAULT (rt : Runtime) : string :=
  env_or (env_REDIRECT_DEFAULT rt) "https://example.com".

Definition ADMIN_KEY (rt : Runtime) : string :=
  env_or (env_ADMIN_KEY rt) "change-this-key".

(** [new URL(input)] *)
Definition new_URL (rt : Runtime) (input : string) : completion URL :=
  match url_parse rt input with
  | Some u => Normal u
  | None => Throw (TypeError "Invalid URL")
  end.

(** [String(v)] on a value.  In an array, [undefined] and [null]
    elements give the empty string.  An object with an own property
    [toString] cannot be converted: the property is not callable and
    [valueOf] returns the object. *)
Fixpoint ToString (rt : Runtime) (v : value) : completion string :=
  match v with
  | VUndefined => Normal "undefined"
  | VNull => Normal "null"
  | VBool b => Normal (if b then "true" else "false")
  | VNum n => Normal (number_to_string rt n)
  | VStr s => Normal s
  | VArr l =>
      cbind (cmap (fun x => match x with
                            | VUndefined | VNull => Normal ""
                            | _ => ToString rt x
                            end) l)
            (fun parts => Normal (JS.join "," parts))
  | VObj l => if has_own "toString" l then Throw cannot_convert
              else Normal "[object Object]"
  end.

(** [a.join(',')] on the elements of an array. *)
Definition array_join (rt : Runtime) (l : list value) : completion string :=
  ToString rt (VArr l).

(* ===================================================================== *)
(** * Requests and responses *)
(* ===================================================================== *)

Record Request : Type := mkRequest {
  query : list (string * qval);                 (* req.query *)
  headers : list (string * string);             (* req.headers *)
  cookies : option (list (string * string));    (* req.cookies *)
  req_body : list (string * value);             (* req.body, a parsed object *)
  remoteAddress : option string;                (* req.socket.remoteAddress *)
  req_ip : option string                        (* req.ip *)
}.

Record Cookie : Type := mkCookie {
  cookie_name : string;
  cookie_value : string;
  httpOnly : bool;
  sameSite : string;
  maxAge : Z
}.

(** The page of lines 215-276: it asks the browser for its position,
    posts the answer to [/api/geo] and shows an image. *)
Inductive Document : Type := GeolocationPage.

(** What a handler does with [res]. *)
Inductive Response : Type :=
  | Redirect (status : Z) (url : option string)
      (* res.redirect(status, url) *)
  | SendHtml (set_cookies : list Cookie) (doc : Document)
      (* res.cookie(...); res.setHeader('Content-Type', 'text/html; ...'); res.send(html) *)
  | SendJson (status : Z) (v : value).
      (* res.status(status).json(v) *)

Definition header (req : Request) (name : string) : option string :=
  assoc name (headers req).

(** [a || b] on strings that may be missing. *)
Definition or_else (a : option string) (b : option string) : option string :=
  match a with
  | Some s => if JS.string_truthy s then a else b
  | None => b
  end.

Definition or_empty (a : option string) : string :=
  match or_else a (Some "") with Some s => s | None => "" end.

(** [req.get(name)] of Express, for a lower-case name: the header of
    that name, and for [referer] either spelling, [referrer] first. *)
Definition req_get (req : Request) (name : string) : option string :=
  if (String.eqb name "referer" || String.eqb name "referrer")%bool
  then or_else (header req "referrer") (header req "referer")
  else header req name.

(* ===================================================================== *)
(** * The destination validator (index.js, lines 145-159) *)
(* ===================================================================== *)

Definition safeRedirectUrl (rt : Runtime) (input : value) : completion string :=
  let maxLen := 2048%nat in
  match input with
  | VStr s =>
      if negb (truthy input) then Normal (REDIRECT_DEFAULT rt)
      else if Nat.ltb maxLen (String.length s) then Normal (REDIRECT_DEFAULT rt)
      else
        match new_URL rt s with
        | Throw _ => Normal (REDIRECT_DEFAULT rt)
        | Normal parsed =>
            if (negb (String.eqb (protocol parsed) "http:") &&
                negb (String.eqb (protocol parsed) "https:"))%bool
            then Normal (REDIRECT_DEFAULT rt)
            else Normal (href parsed)
        end
  | _ => Normal (REDIRECT_DEFAULT rt)       (* typeof input !== 'string' *)
  end.

(* ===================================================================== *)
(** * Click capture (index.js, lines 136-143 and 167-283) *)
(* ===================================================================== *)

(** [s.split(',')[0]] *)
Fixpoint before_comma (l : list ascii) : list ascii :=
  match l with
  | [] => []
  | c :: l' => if Ascii.eqb c "," then [] else c :: before_comma l'
  end.

Definition getClientIp (req : Request) : string :=
  match header req "x-forwarded-for" with
  | Some xff =>
      if Nat.ltb 0 (String.length xff)
      then string_of_list_ascii (JS.trim (before_comma (list_ascii_of_string xff)))
      else or_empty (or_else (remoteAddress req) (req_ip req))
  | None => or_empty (or_else (remoteAddress req) (req_ip req))
  end.

Definition sentinel : string := "view-transaction".

(** [destParam] and [rawDest] of the handler. *)
Definition destParam (req : Request) : option qval :=
  first_if_array (assoc "u" (query req)).

Definition rawDest (req : Request) : completion string :=
  match destParam req with
  | Some v => if q_truthy (Some v) then q_ToString v else Normal ""
  | None => Normal ""
  end.

(** The argument the handler gives to the validator: [rawDest || REDIRECT_DEFAULT]. *)
Definition validator_input (rt : Runtime) (raw : string) : value :=
  VStr (if JS.string_truthy raw then raw else REDIRECT_DEFAULT rt).

(** [approx]: the lookup of the client address, [null] when the address
    is empty or the lookup throws. *)
Definition approx_of (w : World) (ip_ : string) : option GeoHit :=
  match (if JS.string_truthy ip_ then geoip_lookup w ip_ else Normal None) with
  | Normal a => a
  | Throw _ => None
  end.

Definition truthy_string (o : option string) : option string :=
  match o with
  | Some s => if JS.string_truthy s then Some s else None
  | None => None
  end.

Definition region_of (h : GeoHit) : option string :=
  match geo_region h with
  | Some (inr parts) => Some (JS.join "," parts)
  | Some (inl s) => truthy_string (Some s)
  | None => None
  end.

(** [generateId()]: sixteen random bytes in hexadecimal. *)
Definition generateId (w : World) : string := random_id w.

(** The object [record] of lines 188-203, from the locals of the
    handler. *)
Definition click_record (w : World) (req : Request)
    (id_ createdAt ip_ : string) (approx : option GeoHit)
    (isImageMode : bool) (raw : string) (destUrl : option string) : ClickRecord :=
  {| r_id := id_;
     r_created_at := createdAt;
     r_ip := ip_;
     r_ip_chain := match header req "x-forwarded-for" with Some x => x | None => "" end;
     r_user_agent := or_empty (header req "user-agent");
     r_accept_language := or_empty (req_get req "accept-language");
     r_referrer := or_empty (req_get req "referer");
     r_dest_url := if isImageMode then Some raw else destUrl;
     r_approx_country :=
       match approx with Some h => truthy_string (geo_country h) | None => None end;
     r_approx_region :=
       match approx with Some h => region_of h | None => None end;
     r_approx_city :=
       match approx with Some h => truthy_string (geo_city h) | None => None end;
     r_approx_lat :=
       match approx with
       | Some h => match geo_ll h with Some ll => Some (fst ll) | None => None end
       | None => None
       end;
     r_approx_lon :=
       match approx with
       | Some h => match geo_ll h with Some ll => Some (snd ll) | None => None end
       | None => None
       end;
     r_approx_accuracy_km :=
       match approx with Some h => geo_accuracy h | None => None end |}.

Definition cid_cookie (i : string) : Cookie :=
  {| cookie_name := "cid"; cookie_value := i; httpOnly := true;
     sameSite := "lax"; maxAge := 1000 * 60 * 5 |}.

(** [isImageMode ? null : safeRedirectUrl(rawDest || REDIRECT_DEFAULT)] *)
Definition destUrl_of (rt : Runtime) (isImageMode : bool) (raw : string)
  : completion (option string) :=
  if isImageMode then Normal None
  else cbind (safeRedirectUrl rt (validator_input rt raw))
             (fun u => Normal (Some u)).

(** [app.get('/track', ...)] *)
Definition track (rt : Runtime) (w : World) (req : Request) : M Response :=
  raw <- lift (rawDest req) ;;
  let isImageMode := String.eqb raw sentinel in
  destUrl <- lift (destUrl_of rt isImageMode raw) ;;
  let id_ := generateId w in
  let createdAt := now_iso w in
  let ip_ := getClientIp req in
  let approx := approx_of w ip_ in
  let record := click_record w req id_ createdAt ip_ approx isImageMode raw destUrl in
  try_catch (insertClickStmt_run w record) (fun _ => ret tt) ;;;
  if isImageMode
  then ret (SendHtml [cid_cookie id_] GeolocationPage)
  else ret (Redirect 302 destUrl).

(* ===================================================================== *)
(** * Enrichment (index.js, lines 343-384) *)
(* ===================================================================== *)

(** [typeof x === 'number' ? x : null] *)
Definition number_or_null (x : value) : option JS.number :=
  match x with
  | VNum n => Some n
  | _ => None
  end.

(** [x ? String(x) : null] *)
Definition string_or_null (rt : Runtime) (x : value) : completion (option string) :=
  if truthy x then cbind (ToString rt x) (fun s => Normal (Some s))
  else Normal None.

(** [x ? 1 : 0] *)
Definition flag (x : value) : JS.number :=
  if truthy x then JS.lit 1 else JS.lit 0.

(** [Array.isArray(x) ? x.join(',') : null] *)
Definition joined_or_null (rt : Runtime) (x : value) : completion (option string) :=
  match x with
  | VArr l => cbind (array_join rt l) (fun s => Normal (Some s))
  | _ => Normal None
  end.

(** The object given to [updateGeoStmt.run], fields evaluated in the
    order of the source. *)
Definition geo_params (rt : Runtime) (w : World) (cid : string)
    (b : list (string * value)) : completion GeoParams :=
  let lat := number_or_null (prop b "lat") in
  let lon := number_or_null (prop b "lon") in
  let accuracy := number_or_null (prop b "accuracy") in
  cbind (if truthy (prop b "timestamp") then ToString rt (prop b "timestamp")
         else Normal (now_iso w)) (fun timestamp =>
  let consented_ := flag (prop b "consented") in
  cbind (string_or_null rt (prop b "platform")) (fun platform =>
  cbind (string_or_null rt (prop b "vendor")) (fun vendor =>
  cbind (string_or_null rt (prop b "language")) (fun language =>
  cbind (joined_or_null rt (prop b "languages")) (fun languages =>
  cbind (string_or_null rt (prop b "timezone")) (fun timezone =>
  Normal
    {| g_id := cid;
       g_precise_lat := lat;
       g_precise_lon := lon;
       g_precise_accuracy_m := accuracy;
       g_precise_timestamp := timestamp;
       g_consented := consented_;
       g_device_platform := platform;
       g_device_vendor := vendor;
       g_device_language := language;
       g_device_languages := languages;
       g_device_timezone := timezone;
       g_device_hardware_concurrency := number_or_null (prop b "hardwareConcurrency");
       g_device_memory_gb := number_or_null (prop b "deviceMemory");
       g_device_screen_w := number_or_null (prop b "screenW");
       g_device_screen_h := number_or_null (prop b "screenH");
       g_device_color_depth := number_or_null (prop b "colorDepth");
       g_do_not_track := flag (prop b "doNotTrack") |})))))).

(** [req.cookies && req.cookies.cid] *)
Definition cid_of (req : Request) : option string :=
  match cookies req with
  | Some cs => assoc "cid" cs
  | None => None
  end.

Definition json_ok : value := VObj [("ok", VBool true)].
Definition json_not_ok : value := VObj [("ok", VBool false)].
Definition json_missing_cid : value :=
  VObj [("ok", VBool false); ("error", VStr "Missing correlation id")].

(** [app.post('/api/geo', ...)] *)
Definition api_geo (rt : Runtime) (w : World) (req : Request) : M Response :=
  match truthy_string (cid_of req) with
  | None => ret (SendJson 400 json_missing_cid)
  | Some cid =>
      params <- lift (geo_params rt w cid (req_body req)) ;;
      failed <- try_catch (updateGeoStmt_run w params ;;; ret false)
                          (fun _ => ret true) ;;
      if failed : bool then ret (SendJson 500 json_not_ok)
      else ret (SendJson 200 json_ok)
  end.

(* ===================================================================== *)
(** * Reading (index.js, lines 481-556) *)
(* ===================================================================== *)

Definition text_cell (c : option string) : value :=
  match c with Some s => VStr s | None => VNull end.

Definition num_cell (c : option JS.number) : value :=
  match c with Some n => VNum n | None => VNull end.

(** [c !== null] on a column read from the table. *)
Definition not_null {A} (c : option A) : bool :=
  match c with Some _ => true | None => false end.

(** [coords] of [/api/last] (lines 491-494). *)
Definition last_coords (row : Row) : value :=
  let hasPrecise := (not_null (precise_lat row) && not_null (precise_lon row))%bool in
  if hasPrecise
  then VObj [("lat", num_cell (precise_lat row)); ("lon", num_cell (precise_lon row));
             ("accuracy_m", num_cell (precise_accuracy_m row));
             ("source", VStr "browser")]
  else VObj [("lat", num_cell (approx_lat row)); ("lon", num_cell (approx_lon row));
             ("accuracy_km", num_cell (approx_accuracy_km row));
             ("source", VStr "ip")].

(** [app.get('/api/last', ...)] *)
Definition api_last (w : World) : M Response :=
  try_catch
    (row <- query_last w ;;
     match row with
     | None => ret (SendJson 200 (VObj [("ok", VBool true); ("data", VNull)]))
     | Some row =>
         let coords := last_coords row in
         ret (SendJson 200
                (VObj [("ok", VBool true);
                       ("data", VObj [("id", VStr (id row));
                                      ("created_at", VStr (created_at row));
                                      ("ip", text_cell (ip row));
                                      ("ip_chain", text_cell (ip_chain row));
                                      ("coords", coords)])]))
     end)
    (fun _ => ret (SendJson 500 json_not_ok)).

(** [best] of [/api/logs] (lines 536-539). *)
Definition logs_best (r : Row) : value :=
  let hasPrecise := (not_null (precise_lat r) && not_null (precise_lon r))%bool in
  if hasPrecise
  then VObj [("lat", num_cell (precise_lat r)); ("lon", num_cell (precise_lon r));
             ("accuracy_m", num_cell (precise_accuracy_m r));
             ("source", VStr "browser")]
  else VObj [("lat", num_cell (approx_lat r)); ("lon", num_cell (approx_lon r));
             ("accuracy_km", num_cell (approx_accuracy_km r));
             ("source", VStr "ip")].

(** [!!c] on a numeric column. *)
Definition bool_of_cell (c : option JS.number) : bool :=
  match c with Some n => JS.number_truthy n | None => false end.

(** The object built for one row of [/api/logs] (lines 540-549). *)
Definition logs_entry (r : Row) : value :=
  let best := logs_best r in
  VObj [("id", VStr (id r));
        ("created_at", VStr (created_at r));
        ("ip", text_cell (ip r));
        ("ip_chain", text_cell (ip_chain r));
        ("best_coords", best);
        ("approx", VObj [("lat", num_cell (approx_lat r));
                         ("lon", num_cell (approx_lon r));
                         ("accuracy_km", num_cell (approx_accuracy_km r))]);
        ("precise", VObj [("lat", num_cell (precise_lat r));
                          ("lon", num_cell (precise_lon r));
                          ("accuracy_m", num_cell (precise_accuracy_m r))]);
        ("consented", VBool (bool_of_cell (consented r)))].

(** [Number(raw ?? dflt)] *)
Definition number_param (raw : option qval) (dflt : Z) : completion JS.number :=
  match raw with
  | Some v => q_ToNumber v
  | None => Normal (JS.lit dflt)
  end.

(** Lines 520 and 522 on [limit]. *)
Definition correct_limit (limit : JS.number) : JS.number :=
  let limit :=
    if (negb (JS.Number_isFinite limit) || JS.le limit (JS.lit 0))%bool
    then JS.lit 100 else limit in
  if JS.gt limit (JS.lit 1000) then JS.lit 1000 else limit.

(** Line 521 on [offset]. *)
Definition correct_offset (offset : JS.number) : JS.number :=
  if (negb (JS.Number_isFinite offset) || JS.lt offset (JS.lit 0))%bool
  then JS.lit 0 else offset.

(** [!key || key !== ADMIN_KEY] *)
Definition key_refused (rt : Runtime) (key : option qval) : bool :=
  (negb (q_truthy key) ||
   negb match key with
        | Some (QStr s) => String.eqb s (ADMIN_KEY rt)
        | _ => false
        end)%bool.

Definition json_unauthorized : value :=
  VObj [("ok", VBool false); ("error", VStr "unauthorized")].

(** [app.get('/api/logs', ...)] *)
Definition api_logs (rt : Runtime) (w : World) (req : Request) : M Response :=
  let key := first_if_array (assoc "key" (query req)) in
  if key_refused rt key then ret (SendJson 401 json_unauthorized)
  else
    let limitRaw := first_if_array (assoc "limit" (query req)) in
    let offsetRaw := first_if_array (assoc "offset" (query req)) in
    limit <- lift (number_param limitRaw 100) ;;
    offset <- lift (number_param offsetRaw 0) ;;
    let limit := correct_limit limit in
    let offset := correct_offset offset in
    try_catch
      (rows_ <- query_logs w limit offset ;;
       let data := map logs_entry rows_ in
       ret (SendJson 200 (VObj [("ok", VBool true); ("data", VArr data);
                                ("limit", VNum limit); ("offset", VNum offset)])))
      (fun _ => ret (SendJson 500 json_not_ok)).

(* ===================================================================== *)
(** * Vocabulary of the statements *)
(* ===================================================================== *)

(** [v.k] on a value of a JSON response. *)
Definition field (v : value) (k : string) : value :=
  match v with
  | VObj l => prop l k
  | _ => VUndefined
  end.

(** The capture-time columns of a row: identifier, creation time,
    client address and chain, user agent, accepted languages, referrer,
    destination, and the approximate location. *)
Definition capture_fields (r : Row) :=
  (id r, created_at r, ip r, ip_chain r, user_agent r, accept_language r,
   referrer r, dest_url r,
   (approx_country r, approx_region r, approx_city r,
    approx_lat r, approx_lon r, approx_accuracy_km r)).

(** The columns an enrichment writes. *)
Definition enrichment_fields (r : Row) :=
  (precise_lat r, precise_lon r, precise_accuracy_m r, precise_timestamp r,
   consented r,
   (device_platform r, device_vendor r, device_language r,
    device_languages r, device_timezone r),
   (device_hardware_concurrency r, device_memory_gb r, device_screen_w r,
    device_screen_h r, device_color_depth r, do_not_track r)).

(** A value that [String] converts without throwing: no object with an
    own property [toString] in it, nor in the elements of an array. *)
Fixpoint convertible (v : value) : bool :=
  match v with
  | VArr l => forallb convertible l
  | VObj l => negb (has_own "toString" l)
  | _ => true
  end.

(** Induction on a value that reaches the elements of an array. *)
Section ValueInduction.
Variable P : value -> Prop.
Hypothesis Hundefined : P VUndefined.
Hypothesis Hnull : P VNull.
Hypothesis Hbool : forall b, P (VBool b).
Hypothesis Hnum : forall n, P (VNum n).
Hypothesis Hstr : forall s, P (VStr s).
Hypothesis Harr : forall l, Forall P l -> P (VArr l).
Hypothesis Hobj : forall l, P (VObj l).

Fixpoint value_elements_ind (v : value) : P v :=
    match v with
    | VUndefined => Hundefined
    | VNull => Hnull
    | VBool b => Hbool b
    | VNum n => Hnum n
    | VStr s => Hstr s
    | VArr l =>
        Harr l ((fix all (l : list value) : Forall P l :=
                   match l with
                   | [] => Forall_nil P
                   | x :: l' => Forall_cons x (value_elements_ind x) (all l')
                   end) l)
    | VObj l => Hobj l
    end.
End ValueInduction.

(** The fields of the payload the enrichment handler gives to [String]
    when they are truthy. *)
Definition converted_fields : list string :=
  ["timestamp"; "platform"; "vendor"; "language"; "timezone"].

(** The payload holds nothing the handler fails to convert: the
    converted fields are convertible, and so are the elements of
    [languages] when it is an array. *)
Definition payload_converts (b : list (string * value)) : Prop :=
  (forall k, In k converted_fields -> convertible (prop b k) = true) /\
  (forall l, prop b "languages" = VArr l -> forallb convertible l = true).

(** What is stored for a text field given as [x ? String(x) : null]. *)
Definition stringified (rt : Runtime) (x : value) (stored : option string) : Prop :=
  if truthy x then exists s, ToString rt x = Normal s /\ stored = Some s
  else stored = None.

(** The value the UPDATE gives to each of these columns. *)
Definition enrichment_params (p : GeoParams) :=
  (g_precise_lat p, g_precise_lon p, g_precise_accuracy_m p,
   Some (g_precise_timestamp p), Some (g_consented p),
   (g_device_platform p, g_device_vendor p, g_device_language p,
    g_device_languages p, g_device_timezone p),
   (g_device_hardware_concurrency p, g_device_memory_gb p, g_device_screen_w p,
    g_device_screen_h p, g_device_color_depth p, Some (g_do_not_track p))).

(** The primary key holds: no two rows share an identifier. *)
Definition primary_key (t : list Row) : Prop := NoDup (map id t).

(** The schema has every column the migration may add. *)
Definition current (st : Store) : Prop :=
  forall c, In c added_columns -> In (fst c) (column_names st).

(** The added columns [existingCols] lacks, in the order of the calls. *)
Definition missing_columns (existingCols : list string) : list column :=
  filter (fun c => negb (existsb (String.eqb (fst c)) existingCols)) added_columns.

Definition alter_of (c : column) : db_call := CallAlter (fst c) (snd c).

(** The additions that go through before the first failing one, and the
    statements attempted: those and the failing one. *)
Fixpoint added_until_fault (w : World) (cs : list column) : list column :=
  match cs with
  | [] => []
  | c :: cs' => if sql_fault w (alter_of c) then []
                else c :: added_until_fault w cs'
  end.

Fixpoint attempted_until_fault (w : World) (cs : list column) : list column :=
  match cs with
  | [] => []
  | c :: cs' => if sql_fault w (alter_of c) then [c]
                else c :: attempted_until_fault w cs'
  end.

(** The coordinate [c] reported for [row] is the one the selection rule
    gives: precise and tagged [browser] when both precise coordinates
    are present, approximate (null where unknown) and tagged [ip]
    otherwise. *)
Definition best_available (row : Row) (c : value) : Prop :=
  (forall la lo, precise_lat row = Some la -> precise_lon row = Some lo ->
     field c "lat" = VNum la /\ field c "lon" = VNum lo /\
     field c "source" = VStr "browser") /\
  (precise_lat row = None \/ precise_lon row = None ->
     field c "lat" = num_cell (approx_lat row) /\
     field c "lon" = num_cell (approx_lon row) /\
     field c "source" = VStr "ip").

(* ===================================================================== *)
(** * A runtime and a world to run the handlers on examples *)
(* ===================================================================== *)

(** A stand-in for the URL parser: the scheme is what precedes the first
    colon, and the text is kept as it is. *)
Fixpoint before_colon (l : list ascii) : option (list ascii) :=
  match l with
  | [] => None
  | c :: l' =>
      if Ascii.eqb c ":" then Some []
      else match before_colon l' with
           | Some p => Some (c :: p)
           | None => None
           end
  end.

Definition sample_url_parse (s : string) : option URL :=
  match before_colon (list_ascii_of_string s) with
  | Some (c :: p) =>
      Some {| protocol := string_of_list_ascii (c :: p) ++ ":"; href := s |}
  | _ => None
  end.

(** A stand-in for [String(x)] on numbers, exact on the integers that
    binary64 holds without an exponent; the examples convert no other
    number. *)
Definition sample_number_to_string (x : JS.number) : string :=
  match x with
  | S754_nan => "NaN"
  | S754_infinity s => if s then "-Infinity" else "Infinity"
  | S754_zero _ => "0"
  | S754_finite s m e =>
      let z := Z.shiftl (Zpos m) e in
      (if s then "-" else "") ++
      DecimalString.NilZero.string_of_uint (N.to_uint (Z.to_N z))
  end.

Definition sample_runtime : Runtime :=
  {| number_to_string := sample_number_to_string;
     url_parse := sample_url_parse;
     env_REDIRECT_DEFAULT := None;
     env_ADMIN_KEY := None |}.

(** A world with a working engine and an empty lookup table. *)
Definition sample_world : World :=
  {| random_id := "00112233445566778899aabbccddeeff";
     now_iso := "2024-05-01T12:00:00.000Z";
     geoip_lookup := fun _ => Normal None;
     sql_fault := fun _ => false;
     select_last := fun t => hd_error (rev t);
     select_logs := fun _ _ t => rev t |}.

(** The same world with an engine that fails on every statement that
    satisfies [bad]. *)
Definition faulty_world (bad : db_call -> bool) : World :=
  {| random_id := random_id sample_world;
     now_iso := now_iso sample_world;
     geoip_lookup := geoip_lookup sample_world;
     sql_fault := bad;
     select_last := select_last sample_world;
     select_logs := select_logs sample_world |}.

Definition empty_request : Request :=
  {| query := []; headers := []; cookies := Some []; req_body := [];
     remoteAddress := Some "203.0.113.9"; req_ip := Some "203.0.113.9" |}.

Definition empty_store : Store :=
  {| schema := clicks_columns; rows := []; journal := [] |}.

Definition sample_id : string := random_id sample_world.

(** The store after one redirecting click in the sample world. *)
Definition one_click_store : Store :=
  snd (track sample_runtime sample_world empty_request empty_store).

(** The row that click stored. *)
Definition sample_row : Row :=
  row_of_record
    (click_record sample_world empty_request sample_id (now_iso sample_world)
       (getClientIp empty_request) None false "" (Some "https://example.com")).

(** A POST to [/api/geo] with the cookie [cid] and a JSON body. *)
Definition geo_request (cid : string) (b : list (string * value)) : Request :=
  {| query := []; headers := []; cookies := Some [("cid", cid)];
     req_body := b;
     remoteAddress := Some "203.0.113.9"; req_ip := Some "203.0.113.9" |}.

(** The payload of the spec's example:
    [{lat: 10.5, lon: 20.25, accuracy: 5, consented: true}]. *)
Definition example_payload : list (string * value) :=
  [ ("lat", VNum (JS.StringToNumber "10.5"));
    ("lon", VNum (JS.StringToNumber "20.25"));
    ("accuracy", VNum (JS.lit 5));
    ("consented", VBool true) ].

(** A payload whose [platform] is an object with an own property
    [toString]: [{"platform": {"toString": 1}}]. *)
Definition unconvertible_payload : list (string * value) :=
  [ ("platform", VObj [("toString", VNum (JS.lit 1))]) ].

(** A payload whose [platform] is not a string: [{"platform": true}]. *)
Definition mistyped_payload : list (string * value) :=
  [ ("platform", VBool true) ].

Definition update_fails (c : db_call) : bool :=
  match c with CallUpdate _ => true | _ => false end.

(** A GET with the given query parameters. *)
Definition get_request (q : list (string * qval)) : Request :=
  {| query := q; headers := []; cookies := Some []; req_body := [];
     remoteAddress := Some "203.0.113.9"; req_ip := Some "203.0.113.9" |}.

(** A table created before [ip_chain] and [accept_language] existed. *)
Definition old_store : Store :=
  {| schema :=
       filter (fun c => negb (String.eqb (fst c) "ip_chain" ||
                              String.eqb (fst c) "accept_language"))
              clicks_columns;
     rows := []; journal := [] |}.

Definition ip_chain_fails (c : db_call) : bool :=
  match c with
  | CallAlter name _ => String.eqb name "ip_chain"
  | _ => false
  end.

(* ===================================================================== *)
(** * The columns the prepared statements name (index.js, lines 101-130) *)
(* ===================================================================== *)

(** The columns [insertClickStmt] names. *)
Definition insert_columns : list string :=
  [ "id"; "created_at"; "ip"; "ip_chain"; "user_agent"; "accept_language";
    "referrer"; "dest_url"; "approx_country"; "approx_region"; "approx_city";
    "approx_lat"; "approx_lon"; "approx_accuracy_km" ].

(** The columns [updateGeoStmt] names: the SET clause and the WHERE
    clause. *)
Definition update_columns : list string :=
  [ "precise_lat"; "precise_lon"; "precise_accuracy_m"; "precise_timestamp";
    "consented"; "device_platform"; "device_vendor"; "device_language";
    "device_languages"; "device_timezone"; "device_hardware_concurrency";
    "device_memory_gb"; "device_screen_w"; "device_screen_h";
    "device_color_depth"; "do_not_track"; "id" ].

(** The columns of the CREATE TABLE statement that no [addCol] call
    names: a table the migration can bring up to date has at least
    these. *)
Definition base_columns : list string :=
  filter (fun c => negb (existsb (String.eqb c) (map fst added_columns)))
         (map fst clicks_columns).

(* ===================================================================== *)
(** * Escaping for the admin page (index.js, line 400) *)
(* ===================================================================== *)

Definition quote_char : ascii := ascii_of_nat 34.
Definition apostrophe_char : ascii := ascii_of_nat 39.

(** The replacement of one code unit that the pattern of [escapeHtml]
    matches (ampersand, angle brackets, double quote, apostrophe); any
    other code unit is kept. *)
Definition escape_char (c : ascii) : string :=
  if Ascii.eqb c "&" then "&amp;"
  else if Ascii.eqb c "<" then "&lt;"
  else if Ascii.eqb c ">" then "&gt;"
  else if Ascii.eqb c quote_char then "&quot;"
  else if Ascii.eqb c apostrophe_char then "&#39;"
  else String c "".

(** [t.replace(pattern, c => entity[c])] with the global flag. *)
Fixpoint escape_text (t : string) : string :=
  match t with
  | EmptyString => ""
  | String c t' => escape_char c ++ escape_text t'
  end.

(** [escapeHtml(s)]: [String(s || '')] with the five characters
    replaced. *)
Definition escapeHtml (rt : Runtime) (s : value) : completion string :=
  cbind (ToString rt (if truthy s then s else VStr ""))
        (fun t => Normal (escape_text t)).

(** The characters [escapeHtml] replaces. *)
Definition html_special (c : ascii) : bool :=
  (Ascii.eqb c "&" || Ascii.eqb c "<" || Ascii.eqb c ">" ||
   Ascii.eqb c quote_char || Ascii.eqb c apostrophe_char)%bool.

(** The characters that open or close markup or an attribute value. *)
Definition html_delimiter (c : ascii) : bool :=
  (Ascii.eqb c "<" || Ascii.eqb c ">" ||
   Ascii.eqb c quote_char || Ascii.eqb c apostrophe_char)%bool.

Fixpoint string_forallb (f : ascii -> bool) (t : string) : bool :=
  match t with
  | EmptyString => true
  | String c t' => (f c && string_forallb f t')%bool
  end.

(* ===================================================================== *)
(** * Properties *)
(* ===================================================================== *)

(** ** Conversions of the runtime *)

(** The spec's examples and a few edge cases of the grammar. *)
Example StringToNumber_5000 : JS.StringToNumber "5000" = JS.lit 5000.
Proof. reflexivity. Qed.
Example StringToNumber_neg3 : JS.StringToNumber "-3" = SFopp (JS.lit 3).
Proof. reflexivity. Qed.
Example StringToNumber_empty : JS.StringToNumber "" = S754_zero false.
Proof. reflexivity. Qed.
Example StringToNumber_word : JS.StringToNumber "abc" = JS.NaN.
Proof. reflexivity. Qed.
Example StringToNumber_hex : JS.StringToNumber " 0x10 " = JS.lit 16.
Proof. reflexivity. Qed.
Example StringToNumber_frac : JS.StringToNumber "2.5e2" = JS.lit 250.
Proof. reflexivity. Qed.
Example StringToNumber_huge : JS.StringToNumber "1e999" = JS.Infinity.
Proof. vm_compute. reflexivity. Qed.
Example StringToNumber_Infinity : JS.StringToNumber "Infinity" = JS.Infinity.
Proof. reflexivity. Qed.


(** ** The store monad *)

Lemma bind_normal {A B} (c : M A) (k : A -> M B) st a st' :
  c st = (Normal a, st') -> bind c k st = k a st'.
Proof. intros H. unfold bind. rewrite H. reflexivity. Qed.

Lemma bind_throw {A B} (c : M A) (k : A -> M B) st e st' :
  c st = (Throw e, st') -> bind c k st = (Throw e, st').
Proof. intros H. unfold bind. rewrite H. reflexivity. Qed.

Lemma lift_run {A} (c : completion A) st : lift c st = (c, st).
Proof. reflexivity. Qed.

(** ** The destination validator *)

(** The validator always returns, whatever it is given. *)
Lemma safeRedirectUrl_returns rt input : returns (safeRedirectUrl rt input).
Proof.
  unfold returns, safeRedirectUrl.
  destruct input; eauto.
  destruct (negb (truthy (VStr s))); eauto.
  destruct (Nat.ltb _ _); eauto.
  destruct (new_URL rt s); eauto.
  destruct (_ && _)%bool; eauto.
Qed.

(** C1. The destination validator is total: it returns for every input
    and never throws.  For an input that is a string of at most 2048
    code units which parses as a URL whose scheme is http or https, it
    returns the canonical text of that URL; for every other input
    (absent, not a string, longer, unparseable, another scheme) it
    returns the fallback URL.  Being a function of its input and of the
    configuration read at startup, it is deterministic.  The parser is
    assumed to reject the empty string, as [new URL] does. *)
Theorem safeRedirectUrl_total_and_safe (rt : Runtime) (input : value)
    (Hempty : url_parse rt "" = None) :
  returns (safeRedirectUrl rt input) /\
  (forall s u,
      input = VStr s -> String.length s <= 2048 -> url_parse rt s = Some u ->
      protocol u = "http:" \/ protocol u = "https:" ->
      safeRedirectUrl rt input = Normal (href u)) /\
  ((forall s u,
      input = VStr s -> String.length s <= 2048 -> url_parse rt s = Some u ->
      ~ (protocol u = "http:" \/ protocol u = "https:")) ->
   safeRedirectUrl rt input = Normal (REDIRECT_DEFAULT rt)).
Proof.
  split; [apply safeRedirectUrl_returns|]. split.
  - intros s u -> Hlen Hparse Hproto. unfold safeRedirectUrl, new_URL.
    destruct s as [|c s'].
    + rewrite Hempty in Hparse. discriminate.
    + simpl truthy. simpl negb.
      assert (Hfit : Nat.ltb 2048 (String.length (String c s')) = false)
        by (apply Nat.ltb_ge; exact Hlen).
      rewrite Hfit, Hparse.
      destruct Hproto as [Hp | Hp]; rewrite Hp; reflexivity.
  - intros Hother. unfold safeRedirectUrl, new_URL.
    destruct input as [ | | b | n | s | l | l]; try reflexivity.
    destruct (negb (truthy (VStr s))); [reflexivity|].
    destruct (Nat.ltb 2048 (String.length s)) eqn:Hfit; [reflexivity|].
    destruct (url_parse rt s) as [u|] eqn:Hparse; [|reflexivity].
    apply Nat.ltb_ge in Hfit.
    specialize (Hother s u eq_refl Hfit Hparse).
    destruct (String.eqb (protocol u) "http:") eqn:E1.
    + apply String.eqb_eq in E1. exfalso. apply Hother. left. exact E1.
    + destruct (String.eqb (protocol u) "https:") eqn:E2.
      * apply String.eqb_eq in E2. exfalso. apply Hother. right. exact E2.
      * reflexivity.
Qed.

(** ** Click capture *)

(** The guarded insertion of the capture handler never throws; it
    records the statement, and stores the row exactly when the engine
    accepts it. *)
Lemma guarded_insert w r st :
  exists st',
    try_catch (insertClickStmt_run w r) (fun _ => ret tt) st = (Normal tt, st') /\
    journal st' = journal st ++ [CallInsert r] /\
    schema st' = schema st /\
    (sql_fault w (CallInsert r) = false -> has_id (r_id r) (rows st) = false ->
       rows st' = rows st ++ [row_of_record r]) /\
    (sql_fault w (CallInsert r) = true \/ has_id (r_id r) (rows st) = true ->
       rows st' = rows st).
Proof.
  unfold try_catch, insertClickStmt_run, ret.
  destruct (sql_fault w (CallInsert r)) eqn:Hf.
  - eexists. split; [reflexivity|]. simpl. intuition congruence.
  - destruct (has_id (r_id r) (rows st)) eqn:Hid.
    + eexists. split; [reflexivity|]. simpl. intuition congruence.
    + eexists. split; [reflexivity|]. simpl.
      repeat split; auto. intros [H | H]; discriminate.
Qed.

(** The handler, once [rawDest] and [destUrl] are known. *)
Lemma track_run rt w req st raw destUrl :
  rawDest req = Normal raw ->
  destUrl_of rt (String.eqb raw sentinel) raw = Normal destUrl ->
  let record :=
    click_record w req (generateId w) (now_iso w) (getClientIp req)
      (approx_of w (getClientIp req)) (String.eqb raw sentinel) raw destUrl in
  exists st',
    track rt w req st =
      (Normal (if String.eqb raw sentinel
               then SendHtml [cid_cookie (generateId w)] GeolocationPage
               else Redirect 302 destUrl), st') /\
    try_catch (insertClickStmt_run w record) (fun _ => ret tt) st = (Normal tt, st').
Proof.
  intros Hraw Hdest record.
  destruct (guarded_insert w record st) as [st' [Hins _]].
  exists st'. split; [|exact Hins].
  unfold track.
  rewrite (bind_normal _ _ st raw st) by (rewrite lift_run, Hraw; reflexivity).
  rewrite (bind_normal _ _ st destUrl st) by (rewrite lift_run, Hdest; reflexivity).
  fold record.
  rewrite (bind_normal _ _ st tt st') by exact Hins.
  destruct (String.eqb raw sentinel); reflexivity.
Qed.

(** Once the destination parameter has been converted to a string that
    is not the bait sentinel, the record built for insertion has
    [dest_url] equal to the validator's output (the validator is given
    the supplied destination, or the fallback when none was supplied),
    and the response is a 302 redirect to that same URL whatever the
    insertion does: when the engine accepts the row it is stored, when
    the insertion raises the error is swallowed and the redirect is the
    same. *)
Theorem track_redirect_independent_of_insert
    (rt : Runtime) (w : World) (req : Request) (st : Store) (raw : string)
    (Hraw : rawDest req = Normal raw) (Hmode : raw <> sentinel) :
  exists destUrl record,
    safeRedirectUrl rt (validator_input rt raw) = Normal destUrl /\
    (raw <> "" -> validator_input rt raw = VStr raw) /\
    fst (track rt w req st) = Normal (Redirect 302 (Some destUrl)) /\
    journal (snd (track rt w req st)) = journal st ++ [CallInsert record] /\
    r_dest_url record = Some destUrl /\
    (sql_fault w (CallInsert record) = false ->
     has_id (r_id record) (rows st) = false ->
     rows (snd (track rt w req st)) = rows st ++ [row_of_record record]) /\
    (sql_fault w (CallInsert record) = true \/
     has_id (r_id record) (rows st) = true ->
     rows (snd (track rt w req st)) = rows st).
Proof.
  assert (Hneq : String.eqb raw sentinel = false)
    by (apply String.eqb_neq; exact Hmode).
  destruct (safeRedirectUrl_returns rt (validator_input rt raw)) as [destUrl Hv].
  assert (Hdest : destUrl_of rt (String.eqb raw sentinel) raw = Normal (Some destUrl))
    by (unfold destUrl_of; rewrite Hneq, Hv; reflexivity).
  destruct (track_run rt w req st raw (Some destUrl) Hraw Hdest) as [st' [Hrun Hins]].
  rewrite Hneq in Hrun, Hins.
  set (record := click_record w req (generateId w) (now_iso w) (getClientIp req)
                   (approx_of w (getClientIp req)) false raw (Some destUrl)) in *.
  destruct (guarded_insert w record st) as [st'' [Hins' [Hj [_ [Hok Hko]]]]].
  rewrite Hins in Hins'. injection Hins' as <-.
  exists destUrl, record. rewrite Hrun. simpl fst. simpl snd.
  repeat split; auto.
  intros Hne. unfold validator_input.
  destruct raw; [congruence | reflexivity].
Qed.

(** C4. The claim fails on the code, by a missed case of line 169.  The
    request [GET /track?u[toString]=1] is a click that is not the bait
    sentinel: the query parser leaves under [u] an object with an own
    property [toString], line 168 keeps it (it is not an array) and
    [String(destParam)] throws.  The conversion is outside every [try]:
    the handler raises before [record] is built, no INSERT is executed,
    the store is as it was and no redirect is sent, for every
    configuration, engine and table.  The same handler answers a 302
    when [u] is an array or a string. *)
Theorem track_raises_on_unconvertible_destination
    (rt : Runtime) (w : World) (st : Store) :
  let req := get_request [("u", QObj [("toString", QStr "1")])] in
  destParam req = Some (QObj [("toString", QStr "1")]) /\
  rawDest req = Throw cannot_convert /\
  track rt w req st = (Throw cannot_convert, st) /\
  (forall r, In (CallInsert r) (journal (snd (track rt w req st))) ->
             In (CallInsert r) (journal st)) /\
  (forall status target,
     fst (track rt w req st) <> Normal (Redirect status target)).
Proof.
  intros req.
  assert (Hraw : rawDest req = Throw cannot_convert) by reflexivity.
  assert (Hrun : track rt w req st = (Throw cannot_convert, st)).
  { unfold track. apply bind_throw. rewrite lift_run, Hraw. reflexivity. }
  split; [reflexivity|]. split; [exact Hraw|]. split; [exact Hrun|].
  rewrite Hrun. simpl. split; [auto | intros status target; discriminate].
Qed.

(** C5. For every click on the bait sentinel, the response sets one
    cookie, named [cid], whose value is the identifier of the record
    built for insertion, and that record's [dest_url] is the sentinel
    literal, not a destination URL. *)
Theorem track_bait_cookie_is_record_id
    (rt : Runtime) (w : World) (req : Request) (st : Store)
    (Hraw : rawDest req = Normal sentinel) :
  exists record cookie,
    fst (track rt w req st) = Normal (SendHtml [cookie] GeolocationPage) /\
    cookie_name cookie = "cid" /\
    cookie_value cookie = r_id record /\
    journal (snd (track rt w req st)) = journal st ++ [CallInsert record] /\
    r_dest_url record = Some sentinel.
Proof.
  assert (Hdest : destUrl_of rt (String.eqb sentinel sentinel) sentinel = Normal None)
    by reflexivity.
  destruct (track_run rt w req st sentinel None Hraw Hdest) as [st' [Hrun Hins]].
  set (record := click_record w req (generateId w) (now_iso w) (getClientIp req)
                   (approx_of w (getClientIp req))
                   (String.eqb sentinel sentinel) sentinel None) in *.
  destruct (guarded_insert w record st) as [st'' [Hins' [Hj _]]].
  rewrite Hins in Hins'. injection Hins' as <-.
  exists record, (cid_cookie (generateId w)).
  rewrite Hrun. simpl fst. simpl snd.
  repeat split; auto.
Qed.

(** ** Enrichment *)

Lemma truthy_string_none o :
  truthy_string o = None <-> o = None \/ o = Some "".
Proof.
  destruct o as [[|c s]|]; simpl; split; intros H; auto;
    try discriminate; destruct H; discriminate.
Qed.

Lemma truthy_string_some o s :
  truthy_string o = Some s <-> o = Some s /\ s <> "".
Proof.
  destruct o as [[|c s']|]; simpl; split.
  all: try (intros H; discriminate).
  all: try (intros [H _]; discriminate).
  - intros [H Hne]. injection H as <-. congruence.
  - intros H. injection H as <-. split; [reflexivity | discriminate].
  - intros [H _]. exact H.
Qed.

(** The UPDATE changes no capture-time column of any row. *)
Lemma set_geo_capture p r : capture_fields (set_geo p r) = capture_fields r.
Proof. reflexivity. Qed.

Lemma update_where_id_capture p t :
  map capture_fields (update_where_id p t) = map capture_fields t.
Proof.
  unfold update_where_id. induction t as [|r t IH]; simpl; [reflexivity|].
  rewrite IH. destruct (String.eqb (id r) (g_id p)); reflexivity.
Qed.

Lemma update_where_id_ids p t : map id (update_where_id p t) = map id t.
Proof.
  unfold update_where_id. induction t as [|r t IH]; simpl; [reflexivity|].
  rewrite IH. destruct (String.eqb (id r) (g_id p)); reflexivity.
Qed.

(** Rows the WHERE clause does not select stay as they are. *)
Lemma update_where_id_others p t :
  Forall2 (fun r r' => id r <> g_id p -> r' = r) t (update_where_id p t).
Proof.
  unfold update_where_id. induction t as [|r t IH]; simpl; constructor; auto.
  intros Hne. apply String.eqb_neq in Hne. rewrite Hne. reflexivity.
Qed.

Lemma has_id_false_iff i t : has_id i t = false <-> ~ In i (map id t).
Proof.
  unfold has_id. induction t as [|r t IH]; simpl.
  - split; auto.
  - rewrite orb_false_iff, IH, String.eqb_neq. tauto.
Qed.

(** Without a row of that identifier the UPDATE selects and changes
    nothing. *)
Lemma update_absent p t :
  has_id (g_id p) t = false ->
  matching (g_id p) t = 0 /\ update_where_id p t = t.
Proof.
  unfold matching, update_where_id, has_id.
  induction t as [|r t IH]; simpl; [auto|].
  intros H. apply orb_false_iff in H. destruct H as [Hr Ht].
  rewrite Hr. destruct (IH Ht) as [IH1 IH2]. rewrite IH2. auto.
Qed.

(** Under the primary key, an identifier that is present selects one
    row, and the UPDATE rewrites that row alone. *)
Lemma update_present p t :
  primary_key t -> has_id (g_id p) t = true ->
  matching (g_id p) t = 1 /\
  exists t1 r t2,
    t = t1 ++ r :: t2 /\ id r = g_id p /\
    update_where_id p t = t1 ++ set_geo p r :: t2.
Proof.
  unfold primary_key. induction t as [|r t IH]; simpl; [discriminate|].
  intros Hnd Hin. inversion Hnd as [|? ? Hnotin Hnd']; subst.
  destruct (String.eqb (id r) (g_id p)) eqn:Hr.
  - assert (Heq : id r = g_id p) by (apply String.eqb_eq; exact Hr).
    assert (Habs : has_id (g_id p) t = false)
      by (apply has_id_false_iff; rewrite <- Heq; exact Hnotin).
    destruct (update_absent p t Habs) as [Hm Hu]. split.
    + unfold matching in *. simpl. rewrite Hr. simpl. rewrite Hm. reflexivity.
    + exists [], r, t. simpl. rewrite Hu. auto.
  - destruct (IH Hnd' Hin) as [Hm [t1 [r' [t2 [Ht [Hid Hu]]]]]]. split.
    + unfold matching in *. simpl. rewrite Hr. exact Hm.
    + exists (r :: t1), r', t2. simpl. rewrite Hu. rewrite Ht at 1. auto.
Qed.

(** The guarded UPDATE of the enrichment handler. *)
Lemma guarded_update w p st :
  try_catch (updateGeoStmt_run w p ;;; ret false) (fun _ => ret true) st =
  if sql_fault w (CallUpdate p)
  then (Normal true, logged (CallUpdate p) st)
  else (Normal false,
        mkStore (schema st) (update_where_id p (rows st))
                (journal st ++ [CallUpdate p])).
Proof.
  unfold try_catch, bind, updateGeoStmt_run, ret.
  destruct (sql_fault w (CallUpdate p)); reflexivity.
Qed.

(** The handler, once the token is known and the payload is converted. *)
Lemma api_geo_run rt w req st cid p :
  truthy_string (cid_of req) = Some cid ->
  geo_params rt w cid (req_body req) = Normal p ->
  api_geo rt w req st =
  if sql_fault w (CallUpdate p)
  then (Normal (SendJson 500 json_not_ok), logged (CallUpdate p) st)
  else (Normal (SendJson 200 json_ok),
        mkStore (schema st) (update_where_id p (rows st))
                (journal st ++ [CallUpdate p])).
Proof.
  intros Hcid Hp. unfold api_geo. rewrite Hcid.
  rewrite (bind_normal _ _ st p st) by (rewrite lift_run, Hp; reflexivity).
  unfold bind at 1. rewrite guarded_update.
  destruct (sql_fault w (CallUpdate p)); reflexivity.
Qed.

(** A payload that cannot be converted makes the handler throw before
    it reaches the store. *)
Lemma api_geo_throw rt w req st cid e :
  truthy_string (cid_of req) = Some cid ->
  geo_params rt w cid (req_body req) = Throw e ->
  api_geo rt w req st = (Throw e, st).
Proof.
  intros Hcid Hp. unfold api_geo. rewrite Hcid.
  apply bind_throw. rewrite lift_run, Hp. reflexivity.
Qed.

Lemma geo_params_id rt w cid b p :
  geo_params rt w cid b = Normal p -> g_id p = cid.
Proof.
  unfold geo_params, cbind. intros H.
  repeat match type of H with
         | match ?c with _ => _ end = _ => destruct c; try discriminate
         end.
  injection H as <-. reflexivity.
Qed.

(** A convertible value is converted without an exception. *)
Lemma ToString_returns rt : forall v,
  convertible v = true -> returns (ToString rt v).
Proof.
  intros v. induction v as [ | | b | n | s | l IHl | l] using value_elements_ind;
    simpl; intros H; try (eexists; reflexivity).
  - assert (Hl : returns (cmap (fun x => match x with
                                         | VUndefined | VNull => Normal ""
                                         | _ => ToString rt x
                                         end) l)).
    { induction IHl as [|x l Hx _ IH]; simpl in *.
      - eexists; reflexivity.
      - apply andb_true_iff in H. destruct H as [Hcx Hcl].
        assert (Hx' : returns (match x with
                               | VUndefined | VNull => Normal ""
                               | _ => ToString rt x
                               end)).
        { destruct x; try (eexists; reflexivity); apply Hx; exact Hcx. }
        destruct Hx' as [y Hy]. destruct (IH Hcl) as [ys Hys].
        rewrite Hy. simpl. rewrite Hys. simpl. eexists; reflexivity. }
    destruct Hl as [parts Hp]. rewrite Hp. simpl. eexists; reflexivity.
  - destruct (has_own "toString" l); simpl in H;
      [discriminate | eexists; reflexivity].
Qed.

Lemma string_or_null_returns rt x :
  convertible x = true ->
  exists stored, string_or_null rt x = Normal stored /\ stringified rt x stored.
Proof.
  intros H. unfold string_or_null, stringified.
  destruct (truthy x).
  - destruct (ToString_returns rt x H) as [s Hs]. rewrite Hs. simpl.
    eexists. split; [reflexivity|]. exists s. auto.
  - eexists. split; reflexivity.
Qed.

Lemma joined_or_null_returns rt x :
  (forall l, x = VArr l -> forallb convertible l = true) ->
  exists stored, joined_or_null rt x = Normal stored /\
    (is_array x = false -> stored = None) /\
    (forall l, x = VArr l ->
       exists s, array_join rt l = Normal s /\ stored = Some s).
Proof.
  intros H. unfold joined_or_null.
  destruct x as [ | | b | n | s | l | l];
    try (exists None; repeat split; [discriminate || auto ..]; intros; discriminate).
  destruct (ToString_returns rt (VArr l) (H l eq_refl)) as [s Hs].
  unfold array_join. rewrite Hs. simpl. exists (Some s).
  split; [reflexivity|]. split; [discriminate|].
  intros l' Heq. injection Heq as <-. exists s. auto.
Qed.

(** The spec's example: posting [{lat: 10.5, lon: 20.25, accuracy: 5,
    consented: true}] with the token of the stored click sets that
    row's precise columns to those values and [consented] to 1. *)
Example enrichment_example :
  let out := api_geo sample_runtime sample_world
               (geo_request sample_id example_payload) one_click_store in
  fst out = Normal (SendJson 200 json_ok) /\
  map (fun r => (id r, precise_lat r, precise_lon r, precise_accuracy_m r, consented r))
      (rows (snd out)) =
  [ (sample_id, Some (JS.StringToNumber "10.5"), Some (JS.StringToNumber "20.25"),
     Some (JS.lit 5), Some (JS.lit 1)) ].
Proof. vm_compute. split; reflexivity. Qed.

(** C2, the claim as written fails: with a present token that names a
    stored record, the request answers 500 and changes no row when the
    UPDATE raises. *)
Lemma enrichment_existing_token_answers_500_on_engine_failure :
  let req := geo_request sample_id example_payload in
  let out := api_geo sample_runtime (faulty_world update_fails) req one_click_store in
  cid_of req = Some sample_id /\
  has_id sample_id (rows one_click_store) = true /\
  fst out = Normal (SendJson 500 json_not_ok) /\
  rows (snd out) = rows one_click_store.
Proof. vm_compute. repeat split; reflexivity. Qed.

(** C2, amended.  If the cookie [cid] is absent or empty the request is
    answered 400 and the store is untouched.  If the token is present
    and the payload converts: when the UPDATE raises, the answer is 500
    and no row changes; otherwise the answer is success, and under the
    primary key exactly one row is rewritten when the token names a
    stored record, none when it names no record. *)
Theorem api_geo_token_outcomes
    (rt : Runtime) (w : World) (req : Request) (st : Store) :
  (cid_of req = None \/ cid_of req = Some "" ->
   api_geo rt w req st = (Normal (SendJson 400 json_missing_cid), st)) /\
  (forall cid p,
     cid_of req = Some cid -> cid <> "" ->
     geo_params rt w cid (req_body req) = Normal p ->
     primary_key (rows st) ->
     (sql_fault w (CallUpdate p) = true ->
        fst (api_geo rt w req st) = Normal (SendJson 500 json_not_ok) /\
        rows (snd (api_geo rt w req st)) = rows st) /\
     (sql_fault w (CallUpdate p) = false ->
        fst (api_geo rt w req st) = Normal (SendJson 200 json_ok) /\
        (has_id cid (rows st) = true ->
           matching cid (rows st) = 1 /\
           exists t1 r t2,
             rows st = t1 ++ r :: t2 /\ id r = cid /\
             rows (snd (api_geo rt w req st)) = t1 ++ set_geo p r :: t2) /\
        (has_id cid (rows st) = false ->
           matching cid (rows st) = 0 /\
           rows (snd (api_geo rt w req st)) = rows st))).
Proof.
  split.
  - intros H. apply truthy_string_none in H. unfold api_geo. rewrite H. reflexivity.
  - intros cid p Hcid Hne Hp Hpk.
    assert (Hc : truthy_string (cid_of req) = Some cid)
      by (apply truthy_string_some; auto).
    pose proof (api_geo_run rt w req st cid p Hc Hp) as Hrun.
    pose proof (geo_params_id _ _ _ _ _ Hp) as Hid.
    split; intros Hf; rewrite Hf in Hrun; rewrite Hrun; simpl.
    + auto.
    + split; [reflexivity|]. rewrite <- Hid. split; intros Hin.
      * apply update_present; assumption.
      * apply update_absent; assumption.
Qed.

(** The token of the stored click with the example payload: the request
    succeeds. *)
Lemma api_geo_token_outcomes_witness :
  fst (api_geo sample_runtime sample_world
         (geo_request sample_id example_payload) one_click_store)
  = Normal (SendJson 200 json_ok).
Proof.
  destruct (api_geo_token_outcomes sample_runtime sample_world
              (geo_request sample_id example_payload) one_click_store)
    as [_ H].
  edestruct (H sample_id) as [_ Hok].
  - reflexivity.
  - discriminate.
  - vm_compute. reflexivity.
  - unfold primary_key. vm_compute. constructor; [intros []|constructor].
  - apply Hok. reflexivity.
Defined.

(** A payload with an unconvertible field: with a present token and
    the payload [{"platform": {"toString": 1}}], converting [platform]
    throws; the handler raises before it reaches the store. *)
Lemma api_geo_raises_on_unconvertible_field :
  let req := geo_request sample_id unconvertible_payload in
  let out := api_geo sample_runtime sample_world req one_click_store in
  cid_of req = Some sample_id /\
  fst out = Throw cannot_convert /\
  snd out = one_click_store.
Proof. vm_compute. repeat split; reflexivity. Qed.

(** C8, the claim as written fails: the text fields are not
    type-checked.  With a present token and the payload
    [{"platform": true}], the boolean is not coerced to absent: the
    UPDATE is given the string [true] for [device_platform], and the row
    stores it. *)
Lemma mistyped_platform_is_stored_as_text :
  let req := geo_request sample_id mistyped_payload in
  let out := api_geo sample_runtime sample_world req one_click_store in
  is_string (prop (req_body req) "platform") = false /\
  fst out = Normal (SendJson 200 json_ok) /\
  map device_platform (rows (snd out)) = [Some "true"].
Proof. vm_compute. repeat split; reflexivity. Qed.

(** C8, amended.  For every enrichment request with a present token
    whose payload holds no object with an own [toString] where the
    handler converts to a string, the handler does not raise and runs
    one UPDATE, whose parameters are these: latitude, longitude, accuracy and the numeric device fields
    are the payload's number, absent unless it is a number; a falsy or
    missing time stamp is replaced by the receipt time, a truthy one is
    stored as its string; the consent and do-not-track flags are 1 or 0
    by truthiness; [languages] is the comma-joined string of an array
    and absent for any other value; platform, vendor, language and time
    zone are not type-checked: a truthy value is stored as its string, a
    falsy one as absent. *)
Theorem enrichment_coercions
    (rt : Runtime) (w : World) (req : Request) (st : Store) (cid : string)
    (Hcid : truthy_string (cid_of req) = Some cid)
    (Hconv : payload_converts (req_body req)) :
  let b := req_body req in
  exists p,
    geo_params rt w cid b = Normal p /\
    returns (fst (api_geo rt w req st)) /\
    journal (snd (api_geo rt w req st)) = journal st ++ [CallUpdate p] /\
    g_id p = cid /\
    (g_precise_lat p = number_or_null (prop b "lat") /\
     g_precise_lon p = number_or_null (prop b "lon") /\
     g_precise_accuracy_m p = number_or_null (prop b "accuracy") /\
     g_device_hardware_concurrency p = number_or_null (prop b "hardwareConcurrency") /\
     g_device_memory_gb p = number_or_null (prop b "deviceMemory") /\
     g_device_screen_w p = number_or_null (prop b "screenW") /\
     g_device_screen_h p = number_or_null (prop b "screenH") /\
     g_device_color_depth p = number_or_null (prop b "colorDepth")) /\
    (forall x,
       (forall n, x = VNum n -> number_or_null x = Some n) /\
       (is_number x = false -> number_or_null x = None)) /\
    (if truthy (prop b "timestamp")
     then ToString rt (prop b "timestamp") = Normal (g_precise_timestamp p)
     else g_precise_timestamp p = now_iso w) /\
    (g_consented p = (if truthy (prop b "consented") then JS.lit 1 else JS.lit 0) /\
     g_do_not_track p = (if truthy (prop b "doNotTrack") then JS.lit 1 else JS.lit 0)) /\
    ((is_array (prop b "languages") = false -> g_device_languages p = None) /\
     (forall l, prop b "languages" = VArr l ->
        exists s, array_join rt l = Normal s /\ g_device_languages p = Some s)) /\
    (stringified rt (prop b "platform") (g_device_platform p) /\
     stringified rt (prop b "vendor") (g_device_vendor p) /\
     stringified rt (prop b "language") (g_device_language p) /\
     stringified rt (prop b "timezone") (g_device_timezone p)).
Proof.
  intros b. destruct Hconv as [Hconv Hlangs].
  assert (Hts : exists ts,
             (if truthy (prop b "timestamp") then ToString rt (prop b "timestamp")
              else Normal (now_iso w)) = Normal ts /\
             (if truthy (prop b "timestamp")
              then ToString rt (prop b "timestamp") = Normal ts
              else ts = now_iso w)).
  { destruct (truthy (prop b "timestamp")).
    - destruct (ToString_returns rt (prop b "timestamp")) as [ts Hts];
        [apply Hconv; simpl; tauto|].
      exists ts. auto.
    - exists (now_iso w). auto. }
  destruct Hts as [ts [Hts1 Hts2]].
  destruct (string_or_null_returns rt (prop b "platform")) as [pl [Hpl1 Hpl2]];
    [apply Hconv; simpl; tauto|].
  destruct (string_or_null_returns rt (prop b "vendor")) as [ve [Hve1 Hve2]];
    [apply Hconv; simpl; tauto|].
  destruct (string_or_null_returns rt (prop b "language")) as [la [Hla1 Hla2]];
    [apply Hconv; simpl; tauto|].
  destruct (joined_or_null_returns rt (prop b "languages")) as [ls [Hls1 [Hls2 Hls3]]];
    [exact Hlangs|].
  destruct (string_or_null_returns rt (prop b "timezone")) as [tz [Htz1 Htz2]];
    [apply Hconv; simpl; tauto|].
  assert (Hp : exists p, geo_params rt w cid b = Normal p /\
             g_id p = cid /\ g_precise_timestamp p = ts /\
             g_device_platform p = pl /\ g_device_vendor p = ve /\
             g_device_language p = la /\ g_device_languages p = ls /\
             g_device_timezone p = tz /\
             g_precise_lat p = number_or_null (prop b "lat") /\
             g_precise_lon p = number_or_null (prop b "lon") /\
             g_precise_accuracy_m p = number_or_null (prop b "accuracy") /\
             g_device_hardware_concurrency p
               = number_or_null (prop b "hardwareConcurrency") /\
             g_device_memory_gb p = number_or_null (prop b "deviceMemory") /\
             g_device_screen_w p = number_or_null (prop b "screenW") /\
             g_device_screen_h p = number_or_null (prop b "screenH") /\
             g_device_color_depth p = number_or_null (prop b "colorDepth") /\
             g_consented p = flag (prop b "consented") /\
             g_do_not_track p = flag (prop b "doNotTrack")).
  { unfold geo_params. rewrite Hts1. simpl.
    rewrite Hpl1. simpl. rewrite Hve1. simpl. rewrite Hla1. simpl.
    rewrite Hls1. simpl. rewrite Htz1. simpl.
    eexists. split; [reflexivity|]. simpl. repeat split. }
  destruct Hp as [p [Hp Hfields]].
  decompose [and] Hfields. clear Hfields.
  exists p. split; [exact Hp|].
  rewrite (api_geo_run rt w req st cid p Hcid Hp).
  split; [destruct (sql_fault w (CallUpdate p)); eexists; reflexivity|].
  split; [destruct (sql_fault w (CallUpdate p)); reflexivity|].
  split; [assumption|].
  split; [repeat split; assumption|].
  split.
  { intros x. split.
    - intros n ->. reflexivity.
    - destruct x; simpl; intros Hn; try reflexivity; discriminate. }
  split; [destruct (truthy (prop b "timestamp")); congruence|].
  split; [split; assumption|].
  split; [split; [intros Ha | intros l Hl]; subst ls; auto|].
  subst pl ve la tz. auto.
Qed.

(** The example payload converts; its latitude and consent are kept and
    the platform it lacks is stored as absent. *)
Lemma enrichment_coercions_witness :
  exists p,
    geo_params sample_runtime sample_world sample_id example_payload = Normal p /\
    g_precise_lat p = Some (JS.StringToNumber "10.5") /\
    g_consented p = JS.lit 1 /\
    g_device_platform p = None.
Proof.
  destruct (enrichment_coercions sample_runtime sample_world
              (geo_request sample_id example_payload) one_click_store sample_id)
    as [p [Hp [_ [_ [_ [[Hlat _] [_ [_ [[Hcons _] [_ [Hplat _]]]]]]]]]]].
  - reflexivity.
  - split.
    + intros k Hk. vm_compute in Hk.
      repeat (destruct Hk as [<- | Hk]; [reflexivity|]). destruct Hk.
    + intros l Hl. discriminate Hl.
  - exists p. split; [exact Hp|]. split; [|split].
    + rewrite Hlat. reflexivity.
    + rewrite Hcons. reflexivity.
    + exact Hplat.
Defined.

(** The capture-time columns and the enrichment columns are all the
    columns of a row. *)
Lemma row_columns r r' :
  capture_fields r = capture_fields r' ->
  enrichment_fields r = enrichment_fields r' -> r = r'.
Proof.
  destruct r, r'. unfold capture_fields, enrichment_fields. simpl.
  intros H1 H2. injection H1 as -> -> -> -> -> -> -> -> -> -> -> -> -> ->.
  injection H2 as -> -> -> -> -> -> -> -> -> -> -> -> -> -> -> ->.
  reflexivity.
Qed.

(** C9. An enrichment leaves every capture-time column of every row as
    it was, the targeted row included: the UPDATE statement, and with
    it the handler on any request, writes only the precise-enrichment
    and device columns, which take the values of the parameters.  Rows
    of another identifier are not touched at all, and no row is added
    or removed. *)
Theorem enrichment_preserves_capture_fields :
  (forall p r,
     capture_fields (set_geo p r) = capture_fields r /\
     enrichment_fields (set_geo p r) = enrichment_params p) /\
  (forall w p st,
     map capture_fields (rows (snd (updateGeoStmt_run w p st)))
     = map capture_fields (rows st) /\
     Forall2 (fun r r' => id r <> g_id p -> r' = r)
       (rows st) (update_where_id p (rows st))) /\
  (forall rt w req st,
     map capture_fields (rows (snd (api_geo rt w req st)))
     = map capture_fields (rows st)).
Proof.
  split; [intros p r; split; reflexivity|].
  split.
  - intros w p st. split; [|apply update_where_id_others].
    unfold updateGeoStmt_run.
    destruct (sql_fault w (CallUpdate p)); simpl;
      [reflexivity | apply update_where_id_capture].
  - intros rt w req st.
    destruct (truthy_string (cid_of req)) as [cid|] eqn:Hcid.
    + destruct (geo_params rt w cid (req_body req)) as [p|e] eqn:Hp.
      * rewrite (api_geo_run rt w req st cid p Hcid Hp).
        destruct (sql_fault w (CallUpdate p)); simpl;
          [reflexivity | apply update_where_id_capture].
      * rewrite (api_geo_throw rt w req st cid e Hcid Hp). reflexivity.
    + unfold api_geo. rewrite Hcid. reflexivity.
Qed.

(** ** Reading *)

Lemma last_coords_best row : best_available row (last_coords row).
Proof.
  unfold best_available, last_coords.
  destruct (precise_lat row) as [la|], (precise_lon row) as [lo|]; simpl; split.
  all: try (intros la' lo' H1 H2; try discriminate;
            injection H1 as <-; injection H2 as <-; auto).
  all: try (intros [H | H]; discriminate).
  all: intros _; auto.
Qed.

Lemma logs_best_best r : best_available r (logs_best r).
Proof.
  unfold best_available, logs_best.
  destruct (precise_lat r) as [la|], (precise_lon r) as [lo|]; simpl; split.
  all: try (intros la' lo' H1 H2; try discriminate;
            injection H1 as <-; injection H2 as <-; auto).
  all: try (intros [H | H]; discriminate).
  all: intros _; auto.
Qed.

(** A 200 answer of [/api/last] carries the row the engine returned. *)
Lemma api_last_success w st body :
  fst (api_last w st) = Normal (SendJson 200 body) ->
  sql_fault w CallSelectLast = false /\
  match select_last w (rows st) with
  | None => field body "data" = VNull
  | Some row => field (field body "data") "coords" = last_coords row
  end.
Proof.
  unfold api_last, try_catch, bind, query_last, ret.
  destruct (sql_fault w CallSelectLast); simpl.
  - intros H. discriminate.
  - destruct (select_last w (rows st)); simpl; intros H;
      injection H as <-; auto.
Qed.

(** The three ways [/api/logs] goes once its parameters convert. *)
Lemma api_logs_run rt w req st n m :
  key_refused rt (first_if_array (assoc "key" (query req))) = false ->
  number_param (first_if_array (assoc "limit" (query req))) 100 = Normal n ->
  number_param (first_if_array (assoc "offset" (query req))) 0 = Normal m ->
  api_logs rt w req st =
  let call := CallSelectLogs (correct_limit n) (correct_offset m) in
  if sql_fault w call
  then (Normal (SendJson 500 json_not_ok), logged call st)
  else (Normal (SendJson 200
          (VObj [("ok", VBool true);
                 ("data", VArr (map logs_entry
                                  (select_logs w (correct_limit n) (correct_offset m)
                                     (rows st))));
                 ("limit", VNum (correct_limit n));
                 ("offset", VNum (correct_offset m))])),
        logged call st).
Proof.
  intros Hk Hn Hm. unfold api_logs. rewrite Hk.
  rewrite (bind_normal _ _ st n st) by (rewrite lift_run, Hn; reflexivity).
  rewrite (bind_normal _ _ st m st) by (rewrite lift_run, Hm; reflexivity).
  unfold try_catch, bind, query_logs, ret. simpl.
  destruct (sql_fault w _); reflexivity.
Qed.

Lemma api_logs_refused rt w req st :
  key_refused rt (first_if_array (assoc "key" (query req))) = true ->
  api_logs rt w req st = (Normal (SendJson 401 json_unauthorized), st).
Proof. intros Hk. unfold api_logs. rewrite Hk. reflexivity. Qed.

Lemma api_logs_throw_limit rt w req st e :
  key_refused rt (first_if_array (assoc "key" (query req))) = false ->
  number_param (first_if_array (assoc "limit" (query req))) 100 = Throw e ->
  api_logs rt w req st = (Throw e, st).
Proof.
  intros Hk Hn. unfold api_logs. rewrite Hk.
  apply bind_throw. rewrite lift_run, Hn. reflexivity.
Qed.

Lemma api_logs_throw_offset rt w req st n e :
  key_refused rt (first_if_array (assoc "key" (query req))) = false ->
  number_param (first_if_array (assoc "limit" (query req))) 100 = Normal n ->
  number_param (first_if_array (assoc "offset" (query req))) 0 = Throw e ->
  api_logs rt w req st = (Throw e, st).
Proof.
  intros Hk Hn Hm. unfold api_logs. rewrite Hk.
  rewrite (bind_normal _ _ st n st) by (rewrite lift_run, Hn; reflexivity).
  apply bind_throw. rewrite lift_run, Hm. reflexivity.
Qed.

(** A 200 answer of [/api/logs]: the key was accepted, both parameters
    converted, and the one query that ran was given the corrected
    values, which are also the ones in the body. *)
Lemma api_logs_success rt w req st body :
  fst (api_logs rt w req st) = Normal (SendJson 200 body) ->
  exists n m,
    number_param (first_if_array (assoc "limit" (query req))) 100 = Normal n /\
    number_param (first_if_array (assoc "offset" (query req))) 0 = Normal m /\
    journal (snd (api_logs rt w req st))
      = journal st ++ [CallSelectLogs (correct_limit n) (correct_offset m)] /\
    body = VObj [("ok", VBool true);
                 ("data", VArr (map logs_entry
                                  (select_logs w (correct_limit n) (correct_offset m)
                                     (rows st))));
                 ("limit", VNum (correct_limit n));
                 ("offset", VNum (correct_offset m))].
Proof.
  intros H.
  destruct (key_refused rt (first_if_array (assoc "key" (query req)))) eqn:Hk.
  { rewrite (api_logs_refused _ _ _ _ Hk) in H. discriminate. }
  destruct (number_param (first_if_array (assoc "limit" (query req))) 100)
    as [n|e] eqn:Hn.
  2: { rewrite (api_logs_throw_limit _ _ _ _ _ Hk Hn) in H. discriminate. }
  destruct (number_param (first_if_array (assoc "offset" (query req))) 0)
    as [m|e] eqn:Hm.
  2: { rewrite (api_logs_throw_offset _ _ _ _ _ _ Hk Hn Hm) in H. discriminate. }
  exists n, m. rewrite (api_logs_run _ _ _ _ _ _ Hk Hn Hm) in *.
  simpl in *. destruct (sql_fault w _); simpl in *; [discriminate|].
  injection H as <-. auto.
Qed.

(** C6. For every record returned by the latest-record query and by the
    paged-list query, the coordinate reported for it uses the precise
    latitude and longitude with source [browser] when both are non-null,
    and the approximate ones with source [ip] otherwise, null where the
    approximate value is null. *)
Theorem reported_coordinate_is_best_available :
  (forall w st body row,
     fst (api_last w st) = Normal (SendJson 200 body) ->
     select_last w (rows st) = Some row ->
     best_available row (field (field body "data") "coords")) /\
  (forall rt w req st body,
     fst (api_logs rt w req st) = Normal (SendJson 200 body) ->
     exists limit offset entries,
       field body "data" = VArr entries /\
       Forall2 (fun row e => best_available row (field e "best_coords"))
         (select_logs w limit offset (rows st)) entries).
Proof.
  split.
  - intros w st body row H Hrow.
    destruct (api_last_success w st body H) as [_ Hb].
    rewrite Hrow in Hb. rewrite Hb. apply last_coords_best.
  - intros rt w req st body H.
    destruct (api_logs_success rt w req st body H) as [n [m [_ [_ [_ ->]]]]].
    exists (correct_limit n), (correct_offset m),
      (map logs_entry (select_logs w (correct_limit n) (correct_offset m) (rows st))).
    split; [reflexivity|]. clear H.
    generalize (select_logs w (correct_limit n) (correct_offset m) (rows st)).
    intros l. induction l as [|r l IH]; simpl; constructor; auto.
    apply logs_best_best.
Qed.

(** ** Paging parameters *)

Lemma lit_1000_positive : exists m e, JS.lit 1000 = S754_finite false m e.
Proof. vm_compute. eauto. Qed.

Lemma lit_0_zero : JS.lit 0 = S754_zero false.
Proof. reflexivity. Qed.

(** A number above 1000 is not at or below zero. *)
Lemma above_1000_positive n :
  JS.gt n (JS.lit 1000) = true -> JS.le n (JS.lit 0) = false.
Proof.
  destruct lit_1000_positive as [m [e ->]]. rewrite lit_0_zero.
  unfold JS.gt, JS.le, SFltb, SFleb.
  destruct n as [s | [|] | | [|] m' e']; simpl; try discriminate; reflexivity.
Qed.

Lemma correct_limit_default n :
  (JS.Number_isFinite n = false \/ JS.le n (JS.lit 0) = true) ->
  correct_limit n = JS.lit 100.
Proof.
  intros H. unfold correct_limit.
  assert (Hc : (negb (JS.Number_isFinite n) || JS.le n (JS.lit 0))%bool = true)
    by (destruct H as [H | H]; rewrite H; simpl; auto using orb_true_r).
  rewrite Hc. reflexivity.
Qed.

Lemma correct_limit_capped n :
  JS.Number_isFinite n = true -> JS.gt n (JS.lit 1000) = true ->
  correct_limit n = JS.lit 1000.
Proof.
  intros Hfin Hgt. unfold correct_limit.
  rewrite Hfin, (above_1000_positive n Hgt). cbn [negb orb]. rewrite Hgt. reflexivity.
Qed.

Lemma correct_limit_kept n :
  JS.Number_isFinite n = true -> JS.le n (JS.lit 0) = false ->
  JS.gt n (JS.lit 1000) = false ->
  correct_limit n = n.
Proof.
  intros Hfin Hpos Hle. unfold correct_limit.
  rewrite Hfin, Hpos. cbn [negb orb]. rewrite Hle. reflexivity.
Qed.

Lemma correct_offset_default n :
  (JS.Number_isFinite n = false \/ JS.lt n (JS.lit 0) = true) ->
  correct_offset n = JS.lit 0.
Proof.
  intros H. unfold correct_offset.
  assert (Hc : (negb (JS.Number_isFinite n) || JS.lt n (JS.lit 0))%bool = true)
    by (destruct H as [H | H]; rewrite H; simpl; auto using orb_true_r).
  rewrite Hc. reflexivity.
Qed.

Lemma correct_offset_kept n :
  JS.Number_isFinite n = true -> JS.lt n (JS.lit 0) = false ->
  correct_offset n = n.
Proof.
  intros Hfin Hpos. unfold correct_offset. rewrite Hfin, Hpos. reflexivity.
Qed.

(** C10. Whenever [/api/logs] answers with a list, the [limit] and
    [offset] of the body are the values the one SELECT was run with,
    and they are corrected values, not the caller's input.  With [n]
    and [m] the numbers the two parameters convert to: the limit is 100
    when the parameter is absent, when [n] is not finite and when [n]
    is at most zero; it is 1000 when [n] is finite and above 1000; it
    is [n] only when [n] is finite, above zero and at most 1000.  The
    offset is 0 when the parameter is absent, when [m] is not finite
    and when [m] is negative; it is [m] only when [m] is finite and not
    negative.  The other answers (401, 500) echo nothing. *)
Theorem api_logs_echoes_values_used
    (rt : Runtime) (w : World) (req : Request) (st : Store) :
  (forall body,
     fst (api_logs rt w req st) = Normal (SendJson 200 body) ->
     exists n m limit offset,
       number_param (first_if_array (assoc "limit" (query req))) 100 = Normal n /\
       number_param (first_if_array (assoc "offset" (query req))) 0 = Normal m /\
       field body "limit" = VNum limit /\
       field body "offset" = VNum offset /\
       journal (snd (api_logs rt w req st))
         = journal st ++ [CallSelectLogs limit offset] /\
       (assoc "limit" (query req) = None -> limit = JS.lit 100) /\
       (JS.Number_isFinite n = false \/ JS.le n (JS.lit 0) = true ->
          limit = JS.lit 100) /\
       (JS.Number_isFinite n = true -> JS.gt n (JS.lit 1000) = true ->
          limit = JS.lit 1000) /\
       (JS.Number_isFinite n = true -> JS.le n (JS.lit 0) = false ->
        JS.gt n (JS.lit 1000) = false -> limit = n) /\
       (assoc "offset" (query req) = None -> offset = JS.lit 0) /\
       (JS.Number_isFinite m = false \/ JS.lt m (JS.lit 0) = true ->
          offset = JS.lit 0) /\
       (JS.Number_isFinite m = true -> JS.lt m (JS.lit 0) = false ->
          offset = m)) /\
  (forall status body,
     fst (api_logs rt w req st) = Normal (SendJson status body) ->
     status <> 200%Z ->
     field body "limit" = VUndefined /\ field body "offset" = VUndefined).
Proof.
  split.
  - intros body H.
    destruct (api_logs_success rt w req st body H) as [n [m [Hn [Hm [Hj ->]]]]].
    exists n, m, (correct_limit n), (correct_offset m).
    split; [exact Hn|]. split; [exact Hm|].
    split; [reflexivity|]. split; [reflexivity|]. split; [exact Hj|].
    split; [intros Ha; rewrite Ha in Hn; injection Hn as <-; reflexivity|].
    split; [apply correct_limit_default|].
    split; [apply correct_limit_capped|].
    split; [apply correct_limit_kept|].
    split; [intros Ha; rewrite Ha in Hm; injection Hm as <-; reflexivity|].
    split; [apply correct_offset_default | apply correct_offset_kept].
  - intros status body H Hs.
    destruct (key_refused rt (first_if_array (assoc "key" (query req)))) eqn:Hk.
    { rewrite (api_logs_refused _ _ _ _ Hk) in H. injection H as _ <-. auto. }
    destruct (number_param (first_if_array (assoc "limit" (query req))) 100)
      as [n|e] eqn:Hn.
    2: { rewrite (api_logs_throw_limit _ _ _ _ _ Hk Hn) in H. discriminate. }
    destruct (number_param (first_if_array (assoc "offset" (query req))) 0)
      as [m|e] eqn:Hm.
    2: { rewrite (api_logs_throw_offset _ _ _ _ _ _ Hk Hn Hm) in H. discriminate. }
    rewrite (api_logs_run _ _ _ _ _ _ Hk Hn Hm) in H. simpl in H.
    destruct (sql_fault w _); simpl in H; injection H as <- <-.
    + auto.
    + congruence.
Qed.

(** The spec's examples: [limit=5000] is clamped to 1000 and [limit=-3]
    is corrected to 100. *)
Example limit_5000_clamped :
  cbind (number_param (Some (QStr "5000")) 100) (fun n => Normal (correct_limit n))
  = Normal (JS.lit 1000).
Proof. reflexivity. Qed.

Example limit_minus_3_defaulted :
  cbind (number_param (Some (QStr "-3")) 100) (fun n => Normal (correct_limit n))
  = Normal (JS.lit 100).
Proof. reflexivity. Qed.




(** ** Startup migration *)

Lemma existsb_eqb_false x l :
  existsb (String.eqb x) l = false <-> ~ In x l.
Proof.
  induction l as [|y l IH]; simpl.
  - split; auto.
  - rewrite orb_false_iff, IH, String.eqb_neq. intuition congruence.
Qed.

Lemma existsb_eqb_true x l :
  existsb (String.eqb x) l = true <-> In x l.
Proof.
  rewrite existsb_exists. split.
  - intros [y [Hin Heq]]. apply String.eqb_eq in Heq. congruence.
  - intros Hin. exists x. split; [exact Hin | apply String.eqb_refl].
Qed.

Lemma NoDup_map_filter {A B} (f : A -> B) (p : A -> bool) l :
  NoDup (map f l) -> NoDup (map f (filter p l)).
Proof.
  induction l as [|x l IH]; simpl; intros H; [constructor|].
  inversion H as [|? ? Hnotin Hnd]; subst.
  destruct (p x); simpl; auto.
  constructor; auto.
  intros Hin. apply Hnotin. apply in_map_iff in Hin.
  destruct Hin as [y [Hy Hin]]. apply filter_In in Hin.
  apply in_map_iff. exists y. tauto.
Qed.

Lemma store_eta st : mkStore (schema st) (rows st) (journal st) = st.
Proof. destruct st; reflexivity. Qed.

(** The sequence of [addCol] calls: the missing columns are added in
    order until one addition fails; that failure ends the sequence. *)
Lemma addCols_run w ex cs : forall st,
  let miss := filter (fun c => negb (existsb (String.eqb (fst c)) ex)) cs in
  (forall c, In c miss -> ~ In (fst c) (column_names st)) ->
  NoDup (map fst miss) ->
  addCols w ex cs st =
  ((if forallb (fun c => negb (sql_fault w (alter_of c))) miss
    then Normal tt else Throw engine_error),
   mkStore (schema st ++ added_until_fault w miss) (rows st)
           (journal st ++ map alter_of (attempted_until_fault w miss))).
Proof.
  induction cs as [|c cs IH]; intros st miss Hfresh Hnd.
  - simpl. unfold ret. rewrite !app_nil_r, store_eta. reflexivity.
  - subst miss. destruct c as [name type]. simpl in *.
    destruct (existsb (String.eqb name) ex) eqn:Hex; simpl in *.
    + unfold bind, addCol. simpl. rewrite Hex. simpl. apply IH; assumption.
    + unfold bind, addCol. simpl. rewrite Hex. simpl.
      unfold alter_add_column.
      change (alter_of (name, type)) with (CallAlter name type).
      destruct (sql_fault w (CallAlter name type)) eqn:Hf; simpl.
      * unfold logged. rewrite app_nil_r. reflexivity.
      * assert (Hc : existsb (String.eqb name) (column_names st) = false)
          by (apply existsb_eqb_false; apply (Hfresh (name, type)); left; reflexivity).
        rewrite Hc.
        inversion Hnd as [|? ? Hnotin Hnd']; subst.
        rewrite IH.
        -- simpl. rewrite <- !app_assoc. reflexivity.
        -- intros c' Hin. unfold column_names. simpl.
           rewrite map_app. simpl. intros Hin'. apply in_app_or in Hin'.
           destruct Hin' as [Hin' | [Heq | []]].
           ++ apply (Hfresh c'); [right; exact Hin | exact Hin'].
           ++ apply Hnotin. rewrite Heq. apply in_map. exact Hin.
        -- exact Hnd'.
Qed.

Lemma added_columns_distinct : NoDup (map fst added_columns).
Proof.
  simpl. repeat (constructor; [simpl; intuition discriminate|]). constructor.
Qed.

(** The migration as a whole.  It always completes normally. *)
Lemma migrate_run w st :
  migrate w st =
  (Normal tt,
   if sql_fault w CallTableInfo then logged CallTableInfo st
   else
     let miss := missing_columns (column_names st) in
     mkStore (schema st ++ added_until_fault w miss) (rows st)
             (journal st ++ CallTableInfo ::
                map alter_of (attempted_until_fault w miss))).
Proof.
  unfold migrate, try_catch, bind, table_info.
  destruct (sql_fault w CallTableInfo); [reflexivity|].
  rewrite addCols_run.
  - fold (missing_columns (column_names st)). simpl.
    rewrite <- app_assoc. simpl.
    destruct (forallb _ _); reflexivity.
  - intros c Hin. apply filter_In in Hin. destruct Hin as [_ Hin].
    apply negb_true_iff in Hin. apply existsb_eqb_false in Hin. exact Hin.
  - apply NoDup_map_filter. exact added_columns_distinct.
Qed.

Lemma nothing_to_filter (names : list string) (cs : list column) :
  (forall c, In c cs -> In (fst c) names) ->
  filter (fun c => negb (existsb (String.eqb (fst c)) names)) cs = [].
Proof.
  induction cs as [|c cs IH]; simpl; intros H; [reflexivity|].
  assert (Hc : existsb (String.eqb (fst c)) names = true)
    by (apply existsb_eqb_true; apply H; left; reflexivity).
  rewrite Hc. simpl. apply IH. intros c' Hin. apply H. right. exact Hin.
Qed.

Lemma current_nothing_missing st :
  current st -> missing_columns (column_names st) = [].
Proof. intros H. apply nothing_to_filter. exact H. Qed.

Lemma added_until_fault_all w cs :
  (forall c, sql_fault w c = false) -> added_until_fault w cs = cs.
Proof.
  intros H. induction cs as [|c cs IH]; simpl; [reflexivity|].
  rewrite H, IH. reflexivity.
Qed.

(** With a working engine the migration leaves a current schema. *)
Lemma migrate_makes_current w st :
  (forall c, sql_fault w c = false) -> current (snd (migrate w st)).
Proof.
  intros Hok. rewrite migrate_run, Hok. simpl.
  rewrite (added_until_fault_all w _ Hok).
  intros c Hin. unfold column_names. simpl. rewrite map_app.
  apply in_or_app.
  destruct (existsb (String.eqb (fst c)) (column_names st)) eqn:Hex.
  - left. apply existsb_eqb_true. exact Hex.
  - right. apply in_map. unfold missing_columns. apply filter_In.
    split; [exact Hin | unfold column_names in Hex; rewrite Hex; reflexivity].
Qed.

(** C3, the claim as written fails: on a table that lacks [ip_chain]
    and [accept_language], when adding [ip_chain] fails the migration
    stops there: [accept_language] is still missing and its addition
    was never attempted. *)
Lemma migration_stops_at_first_failure :
  let st' := snd (migrate (faulty_world ip_chain_fails) old_store) in
  existsb (String.eqb "accept_language") (column_names old_store) = false /\
  sql_fault (faulty_world ip_chain_fails) (CallAlter "accept_language" "TEXT") = false /\
  journal st' = [CallTableInfo; CallAlter "ip_chain" "TEXT"] /\
  existsb (String.eqb "accept_language") (column_names st') = false.
Proof. vm_compute. repeat split; reflexivity. Qed.

(** C3, amended.  The startup migration never raises, so it does not by
    itself abort startup.  It is idempotent: against a schema that is
    already current it adds no column and attempts no addition, and
    with a working engine one run leaves a current schema, so a second
    run changes nothing.  The missing columns are added in the order of
    the calls, and the first addition that fails ends the migration:
    the columns before it are added, the additions after it are not
    attempted. *)
Theorem migration_idempotent_and_stops_at_failure (w : World) (st : Store) :
  fst (migrate w st) = Normal tt /\
  rows (snd (migrate w st)) = rows st /\
  (current st ->
     schema (snd (migrate w st)) = schema st /\
     journal (snd (migrate w st)) = journal st ++ [CallTableInfo]) /\
  ((forall c, sql_fault w c = false) ->
     current (snd (migrate w st)) /\
     schema (snd (migrate w (snd (migrate w st)))) = schema (snd (migrate w st))) /\
  (sql_fault w CallTableInfo = false ->
     let miss := missing_columns (column_names st) in
     schema (snd (migrate w st)) = schema st ++ added_until_fault w miss /\
     journal (snd (migrate w st))
       = journal st ++ CallTableInfo :: map alter_of (attempted_until_fault w miss)).
Proof.
  split; [rewrite migrate_run; reflexivity|].
  split; [rewrite migrate_run; destruct (sql_fault w CallTableInfo); reflexivity|].
  split; [|split].
  - intros Hcur. rewrite migrate_run.
    rewrite (current_nothing_missing st Hcur).
    destruct (sql_fault w CallTableInfo); simpl; rewrite ?app_nil_r; auto.
  - intros Hok. split; [apply migrate_makes_current; exact Hok|].
    pose proof (migrate_makes_current w st Hok) as Hcur.
    rewrite (migrate_run w (snd (migrate w st))).
    rewrite (current_nothing_missing _ Hcur).
    destruct (sql_fault w CallTableInfo); simpl; rewrite ?app_nil_r; auto.
  - intros Hok. rewrite migrate_run, Hok. simpl. auto.
Qed.

(** On the current schema the migration only reads the columns; on the
    old table, with a working engine, it adds the two missing ones. *)
Lemma migration_idempotent_and_stops_at_failure_witness :
  schema (snd (migrate sample_world empty_store)) = schema empty_store /\
  journal (snd (migrate sample_world empty_store)) = [CallTableInfo] /\
  schema (snd (migrate sample_world old_store))
    = schema old_store ++ [("ip_chain", "TEXT"); ("accept_language", "TEXT")].
Proof.
  destruct (migration_idempotent_and_stops_at_failure sample_world empty_store)
    as [_ [_ [Hcur _]]].
  destruct (migration_idempotent_and_stops_at_failure sample_world old_store)
    as [_ [_ [_ [_ Hrun]]]].
  split; [|split].
  - apply Hcur. intros c Hin. vm_compute in Hin. vm_compute.
    repeat (destruct Hin as [<- | Hin]; [tauto|]). destruct Hin.
  - apply Hcur. intros c Hin. vm_compute in Hin. vm_compute.
    repeat (destruct Hin as [<- | Hin]; [tauto|]). destruct Hin.
  - destruct (Hrun eq_refl) as [Hs _]. rewrite Hs. reflexivity.
Defined.

(** ** The primary key is an invariant of the handlers *)

Lemma destUrl_of_returns rt b raw : returns (destUrl_of rt b raw).
Proof.
  unfold destUrl_of. destruct b; [eexists; reflexivity|].
  destruct (safeRedirectUrl_returns rt (validator_input rt raw)) as [u Hu].
  rewrite Hu. eexists; reflexivity.
Qed.

Lemma primary_key_insert t r :
  primary_key t -> has_id (r_id r) t = false ->
  primary_key (t ++ [row_of_record r]).
Proof.
  unfold primary_key. intros Hpk Hid. rewrite map_app. simpl.
  apply has_id_false_iff in Hid.
  apply NoDup_app; [exact Hpk | repeat constructor; simpl; tauto |].
  intros x Hin [<- | []]. exact (Hid Hin).
Qed.

Lemma track_preserves_primary_key rt w req st :
  primary_key (rows st) -> primary_key (rows (snd (track rt w req st))).
Proof.
  intros Hpk. destruct (rawDest req) as [raw|e] eqn:Hraw.
  - destruct (destUrl_of_returns rt (String.eqb raw sentinel) raw) as [d Hd].
    destruct (track_run rt w req st raw d Hraw Hd) as [st' [Hrun Hins]].
    rewrite Hrun. simpl.
    destruct (guarded_insert w
                (click_record w req (generateId w) (now_iso w) (getClientIp req)
                   (approx_of w (getClientIp req)) (String.eqb raw sentinel) raw d)
                st) as [st'' [Hins' [_ [_ [Hok Hko]]]]].
    rewrite Hins in Hins'. injection Hins' as <-.
    destruct (sql_fault w _) eqn:Hf.
    + rewrite Hko by auto. exact Hpk.
    + destruct (has_id _ (rows st)) eqn:Hid.
      * rewrite Hko by auto. exact Hpk.
      * rewrite Hok by auto. apply primary_key_insert; assumption.
  - unfold track. rewrite (bind_throw _ _ st e st)
      by (rewrite lift_run, Hraw; reflexivity).
    exact Hpk.
Qed.

Lemma api_geo_preserves_primary_key rt w req st :
  primary_key (rows st) -> primary_key (rows (snd (api_geo rt w req st))).
Proof.
  intros Hpk.
  destruct (truthy_string (cid_of req)) as [cid|] eqn:Hcid.
  - destruct (geo_params rt w cid (req_body req)) as [p|e] eqn:Hp.
    + rewrite (api_geo_run rt w req st cid p Hcid Hp).
      destruct (sql_fault w (CallUpdate p)); simpl; [exact Hpk|].
      unfold primary_key. rewrite update_where_id_ids. exact Hpk.
    + rewrite (api_geo_throw rt w req st cid e Hcid Hp). exact Hpk.
  - unfold api_geo. rewrite Hcid. exact Hpk.
Qed.

(** Reading and migrating leave the rows as they are. *)
Lemma reading_keeps_rows rt w req st :
  rows (snd (api_last w st)) = rows st /\
  rows (snd (api_logs rt w req st)) = rows st.
Proof.
  split.
  - unfold api_last, try_catch, bind, query_last, ret.
    destruct (sql_fault w CallSelectLast); [reflexivity|].
    destruct (select_last w (rows st)); reflexivity.
  - destruct (key_refused rt (first_if_array (assoc "key" (query req)))) eqn:Hk.
    { rewrite (api_logs_refused _ _ _ _ Hk). reflexivity. }
    destruct (number_param (first_if_array (assoc "limit" (query req))) 100)
      as [n|e] eqn:Hn.
    2: { rewrite (api_logs_throw_limit _ _ _ _ _ Hk Hn). reflexivity. }
    destruct (number_param (first_if_array (assoc "offset" (query req))) 0)
      as [m|e] eqn:Hm.
    2: { rewrite (api_logs_throw_offset _ _ _ _ _ _ Hk Hn Hm). reflexivity. }
    rewrite (api_logs_run _ _ _ _ _ _ Hk Hn Hm). simpl.
    destruct (sql_fault w _); reflexivity.
Qed.

(** ** The statements at work on concrete requests *)

(** An https destination is returned as the parser spells it. *)
Lemma safeRedirectUrl_total_and_safe_witness :
  safeRedirectUrl sample_runtime (VStr "https://example.com/x")
  = Normal "https://example.com/x".
Proof.
  destruct (safeRedirectUrl_total_and_safe sample_runtime
              (VStr "https://example.com/x") eq_refl) as [_ [H _]].
  apply (H "https://example.com/x"
           {| protocol := "https:"; href := "https://example.com/x" |}).
  - reflexivity.
  - apply Nat.leb_le. reflexivity.
  - reflexivity.
  - right. reflexivity.
Defined.

(** The spec's example: a capture with destination
    [https://example.com/x] is answered by a 302 to that URL and stores
    one record with that [dest_url]. *)
Lemma track_redirect_independent_of_insert_witness :
  let out := track sample_runtime sample_world
               (get_request [("u", QStr "https://example.com/x")]) empty_store in
  fst out = Normal (Redirect 302 (Some "https://example.com/x")) /\
  map dest_url (rows (snd out)) = [Some "https://example.com/x"].
Proof.
  destruct (track_redirect_independent_of_insert sample_runtime sample_world
              (get_request [("u", QStr "https://example.com/x")]) empty_store
              "https://example.com/x" eq_refl)
    as [destUrl [record [Hv [_ [Hresp [_ [Hdest [Hrows _]]]]]]]].
  - discriminate.
  - vm_compute in Hv. injection Hv as <-. split; [exact Hresp|].
    cbv zeta. rewrite Hrows by reflexivity.
    simpl. rewrite Hdest. reflexivity.
Defined.

(** The spec's example: a capture with the sentinel sets the cookie
    [cid] to the identifier of the record. *)
Lemma track_bait_cookie_is_record_id_witness :
  exists record cookie,
    fst (track sample_runtime sample_world
           (get_request [("u", QStr "view-transaction")]) empty_store)
    = Normal (SendHtml [cookie] GeolocationPage) /\
    cookie_value cookie = r_id record /\
    r_dest_url record = Some "view-transaction".
Proof.
  destruct (track_bait_cookie_is_record_id sample_runtime sample_world
              (get_request [("u", QStr "view-transaction")]) empty_store eq_refl)
    as [record [cookie [Hresp [_ [Hval [_ Hdest]]]]]].
  exists record, cookie. auto.
Defined.

(** The latest record of the sample store is reported by the rule. *)
Lemma reported_coordinate_is_best_available_witness :
  exists row c,
    select_last sample_world (rows one_click_store) = Some row /\
    best_available row c.
Proof.
  destruct reported_coordinate_is_best_available as [Hlast _].
  eexists. eexists. split.
  - vm_compute. reflexivity.
  - apply (Hlast sample_world one_click_store); vm_compute; reflexivity.
Defined.

(** [limit=5000] with [offset=-5] is echoed as 1000 and 0, the values
    the query was run with; neither is the caller's number. *)
Lemma api_logs_echoes_values_used_witness :
  let req := get_request [("key", QStr "change-this-key");
                          ("limit", QStr "5000"); ("offset", QStr "-5")] in
  exists body,
    fst (api_logs sample_runtime sample_world req one_click_store)
    = Normal (SendJson 200 body) /\
    field body "limit" = VNum (JS.lit 1000) /\
    field body "offset" = VNum (JS.lit 0) /\
    journal (snd (api_logs sample_runtime sample_world req one_click_store))
    = journal one_click_store ++ [CallSelectLogs (JS.lit 1000) (JS.lit 0)] /\
    JS.lit 1000 <> JS.lit 5000 /\ JS.lit 0 <> JS.lit (-5).
Proof.
  intros req.
  destruct (api_logs_echoes_values_used sample_runtime sample_world req
              one_click_store) as [H _].
  edestruct H
    as [n [m [limit [offset [Hn [Hm [Hl [Ho [Hj [_ [_ [Hcap [_ [_ [Hneg _]]]]]]]]]]]]]]];
    [vm_compute; reflexivity|].
  vm_compute in Hn, Hm. injection Hn as <-. injection Hm as <-.
  assert (El : limit = JS.lit 1000) by (apply Hcap; reflexivity).
  assert (Eo : offset = JS.lit 0) by (apply Hneg; right; reflexivity).
  subst limit offset.
  eexists. split; [vm_compute; reflexivity|].
  split; [exact Hl|]. split; [exact Ho|]. split; [exact Hj|].
  split; vm_compute; discriminate.
Defined.

(* ===================================================================== *)
(** * Further properties of the code *)
(* ===================================================================== *)

(** ** Escaping for the admin page *)

Lemma escape_char_no_delimiter c :
  string_forallb (fun x => negb (html_delimiter x)) (escape_char c) = true.
Proof.
  unfold escape_char.
  destruct (Ascii.eqb c "&") eqn:E1; [reflexivity|].
  destruct (Ascii.eqb c "<") eqn:E2; [reflexivity|].
  destruct (Ascii.eqb c ">") eqn:E3; [reflexivity|].
  destruct (Ascii.eqb c quote_char) eqn:E4; [reflexivity|].
  destruct (Ascii.eqb c apostrophe_char) eqn:E5; [reflexivity|].
  simpl. unfold html_delimiter. rewrite E2, E3, E4, E5. reflexivity.
Qed.

Lemma string_forallb_app f a b :
  string_forallb f (a ++ b)%string = (string_forallb f a && string_forallb f b)%bool.
Proof.
  induction a as [|c a IH]; simpl; [reflexivity|].
  rewrite IH. apply andb_assoc.
Qed.

Lemma escape_text_no_delimiter t :
  string_forallb (fun x => negb (html_delimiter x)) (escape_text t) = true.
Proof.
  induction t as [|c t IH]; simpl; [reflexivity|].
  rewrite string_forallb_app, escape_char_no_delimiter, IH. reflexivity.
Qed.

(** X1. Whatever [escapeHtml] is given, what it returns holds no angle
    bracket, no double quote and no apostrophe: the result cannot open
    or close a tag or an attribute value.  A falsy argument (null, the
    empty string, the number 0) is rendered as the empty string. *)
Theorem escapeHtml_output_has_no_delimiter (rt : Runtime) (s : value) :
  (forall out, escapeHtml rt s = Normal out ->
     string_forallb (fun c => negb (html_delimiter c)) out = true) /\
  (truthy s = false -> escapeHtml rt s = Normal "").
Proof.
  split.
  - intros out H. unfold escapeHtml, cbind in H.
    destruct (ToString rt _) as [t|e]; [|discriminate].
    injection H as <-. apply escape_text_no_delimiter.
  - intros H. unfold escapeHtml. rewrite H. reflexivity.
Qed.

Lemma escapeHtml_output_has_no_delimiter_witness :
  escapeHtml sample_runtime VNull = Normal "" /\
  escapeHtml sample_runtime (VNum (JS.lit 0)) = Normal "".
Proof.
  split.
  - apply (escapeHtml_output_has_no_delimiter sample_runtime VNull). reflexivity.
  - apply (escapeHtml_output_has_no_delimiter sample_runtime (VNum (JS.lit 0))).
    reflexivity.
Defined.

Lemma string_app_assoc (a b c : string) :
  ((a ++ b) ++ c)%string = (a ++ (b ++ c))%string.
Proof. induction a as [|x a IH]; simpl; [reflexivity | rewrite IH; reflexivity]. Qed.

Lemma escape_text_app a b :
  escape_text (a ++ b)%string = (escape_text a ++ escape_text b)%string.
Proof.
  induction a as [|c a IH]; simpl; [reflexivity|].
  rewrite IH. symmetry. apply string_app_assoc.
Qed.

Lemma escape_char_plain c :
  html_special c = false -> escape_char c = String c "".
Proof.
  unfold html_special, escape_char. intros H.
  repeat (apply orb_false_iff in H; destruct H as [H ?]).
  rewrite H, H0, H1, H2, H3. reflexivity.
Qed.

Lemma escape_char_special c :
  html_special c = true -> exists t, escape_char c = String "&" t /\
    (t = "amp;" /\ c = "&"%char \/ t = "lt;" /\ c = "<"%char \/
     t = "gt;" /\ c = ">"%char \/ t = "quot;" /\ c = quote_char \/
     t = "#39;" /\ c = apostrophe_char).
Proof.
  unfold html_special, escape_char. intros H.
  destruct (Ascii.eqb c "&") eqn:E1.
  { apply Ascii.eqb_eq in E1. eexists. split; [reflexivity|]. auto. }
  destruct (Ascii.eqb c "<") eqn:E2.
  { apply Ascii.eqb_eq in E2. eexists. split; [reflexivity|]. auto. }
  destruct (Ascii.eqb c ">") eqn:E3.
  { apply Ascii.eqb_eq in E3. eexists. split; [reflexivity|]. auto. }
  destruct (Ascii.eqb c quote_char) eqn:E4.
  { apply Ascii.eqb_eq in E4. eexists. split; [reflexivity|]. auto 6. }
  destruct (Ascii.eqb c apostrophe_char) eqn:E5.
  { apply Ascii.eqb_eq in E5. eexists. split; [reflexivity|]. auto 6. }
  discriminate.
Qed.

(** Two characters with the same replacement followed by the same text
    are the same character, and what follows is the same. *)
Lemma escape_char_cancel c1 c2 r1 r2 :
  (escape_char c1 ++ r1)%string = (escape_char c2 ++ r2)%string -> c1 = c2 /\ r1 = r2.
Proof.
  intros H.
  destruct (html_special c1) eqn:S1, (html_special c2) eqn:S2.
  - destruct (escape_char_special c1 S1) as [t1 [E1 D1]].
    destruct (escape_char_special c2 S2) as [t2 [E2 D2]].
    rewrite E1, E2 in H. simpl in H.
    destruct D1 as [[-> ->] | [[-> ->] | [[-> ->] | [[-> ->] | [-> ->]]]]];
    destruct D2 as [[-> ->] | [[-> ->] | [[-> ->] | [[-> ->] | [-> ->]]]]];
    simpl in H; try discriminate; injection H as ->; auto.
  - destruct (escape_char_special c1 S1) as [t1 [E1 D1]].
    rewrite E1, (escape_char_plain c2 S2) in H. simpl in H.
    injection H as <- _. discriminate.
  - destruct (escape_char_special c2 S2) as [t2 [E2 D2]].
    rewrite E2, (escape_char_plain c1 S1) in H. simpl in H.
    injection H as -> _. discriminate.
  - rewrite (escape_char_plain c1 S1), (escape_char_plain c2 S2) in H.
    simpl in H. injection H as -> ->. auto.
Qed.

Lemma escape_char_nonempty c : escape_char c <> "".
Proof.
  destruct (html_special c) eqn:S.
  - destruct (escape_char_special c S) as [t [E _]]. rewrite E. discriminate.
  - rewrite (escape_char_plain c S). discriminate.
Qed.

Lemma append_empty a b : (a ++ b)%string = "" -> a = "".
Proof. destruct a; simpl; [reflexivity | discriminate]. Qed.

(** X2. The replacement of [escapeHtml] loses nothing and works piece by
    piece: two different texts never give the same escaped text, the
    escaped text of a concatenation is the concatenation of the escaped
    texts, and a text without any of the five characters is returned
    as it is. *)
Theorem escape_text_faithful :
  (forall a b, escape_text a = escape_text b -> a = b) /\
  (forall a b, escape_text (a ++ b)%string = (escape_text a ++ escape_text b)%string) /\
  (forall t, string_forallb (fun c => negb (html_special c)) t = true ->
     escape_text t = t).
Proof.
  split; [|split].
  - induction a as [|c a IH]; intros [|d b] H; simpl in H.
    + reflexivity.
    + symmetry in H. apply append_empty in H.
      exfalso. exact (escape_char_nonempty d H).
    + apply append_empty in H. exfalso. exact (escape_char_nonempty c H).
    + apply escape_char_cancel in H. destruct H as [-> H].
      rewrite (IH b H). reflexivity.
  - apply escape_text_app.
  - induction t as [|c t IH]; simpl; [reflexivity|].
    intros H. apply andb_true_iff in H. destruct H as [Hc Ht].
    apply negb_true_iff in Hc.
    rewrite (escape_char_plain c Hc), (IH Ht). reflexivity.
Qed.

Lemma escape_text_faithful_witness :
  escape_text "203.0.113.9" = "203.0.113.9".
Proof.
  destruct escape_text_faithful as [_ [_ H]]. apply H. reflexivity.
Defined.

(** ** Paging, authorisation and reading *)

Lemma correct_limit_in_range n :
  JS.Number_isFinite (correct_limit n) = true /\
  JS.le (correct_limit n) (JS.lit 0) = false /\
  JS.gt (correct_limit n) (JS.lit 1000) = false.
Proof.
  unfold correct_limit.
  destruct (negb (JS.Number_isFinite n) || JS.le n (JS.lit 0))%bool eqn:Hd.
  - vm_compute. auto.
  - apply orb_false_iff in Hd. destruct Hd as [Hfin Hpos].
    apply negb_false_iff in Hfin.
    destruct (JS.gt n (JS.lit 1000)) eqn:Hgt.
    + vm_compute. auto.
    + auto.
Qed.

Lemma correct_offset_in_range n :
  JS.Number_isFinite (correct_offset n) = true /\
  JS.lt (correct_offset n) (JS.lit 0) = false.
Proof.
  unfold correct_offset.
  destruct (negb (JS.Number_isFinite n) || JS.lt n (JS.lit 0))%bool eqn:Hd.
  - vm_compute. auto.
  - apply orb_false_iff in Hd. destruct Hd as [Hfin Hpos].
    apply negb_false_iff in Hfin. auto.
Qed.

(** What [/api/logs] leaves in the journal: nothing, or one SELECT with
    corrected values. *)
Lemma api_logs_journal rt w req st :
  journal (snd (api_logs rt w req st)) = journal st \/
  exists n m,
    journal (snd (api_logs rt w req st))
    = journal st ++ [CallSelectLogs (correct_limit n) (correct_offset m)].
Proof.
  destruct (key_refused rt (first_if_array (assoc "key" (query req)))) eqn:Hk.
  { rewrite (api_logs_refused _ _ _ _ Hk). auto. }
  destruct (number_param (first_if_array (assoc "limit" (query req))) 100)
    as [n|e] eqn:Hn.
  2: { rewrite (api_logs_throw_limit _ _ _ _ _ Hk Hn). auto. }
  destruct (number_param (first_if_array (assoc "offset" (query req))) 0)
    as [m|e] eqn:Hm.
  2: { rewrite (api_logs_throw_offset _ _ _ _ _ _ Hk Hn Hm). auto. }
  right. exists n, m. rewrite (api_logs_run _ _ _ _ _ _ Hk Hn Hm). simpl.
  destruct (sql_fault w _); reflexivity.
Qed.

(** X3. Whatever the caller sends, the limit the paged-list query is
    run with is a finite number above zero and at most 1000, and the
    offset is a finite number that is not negative: this holds of the
    two corrections on every number, and so of every SELECT that
    [/api/logs] executes. *)
Theorem paging_values_in_range :
  (forall n,
     JS.Number_isFinite (correct_limit n) = true /\
     JS.le (correct_limit n) (JS.lit 0) = false /\
     JS.gt (correct_limit n) (JS.lit 1000) = false) /\
  (forall m,
     JS.Number_isFinite (correct_offset m) = true /\
     JS.lt (correct_offset m) (JS.lit 0) = false) /\
  (forall rt w req st limit offset,
     journal (snd (api_logs rt w req st))
       = journal st ++ [CallSelectLogs limit offset] ->
     (JS.Number_isFinite limit = true /\ JS.le limit (JS.lit 0) = false /\
      JS.gt limit (JS.lit 1000) = false) /\
     (JS.Number_isFinite offset = true /\ JS.lt offset (JS.lit 0) = false)).
Proof.
  split; [exact correct_limit_in_range|].
  split; [exact correct_offset_in_range|].
  intros rt w req st limit offset H.
  destruct (api_logs_journal rt w req st) as [Hj | [n [m Hj]]]; rewrite Hj in H.
  - exfalso. rewrite <- (app_nil_r (journal st)) in H at 1.
    apply app_inv_head in H. discriminate.
  - apply app_inv_head in H. injection H as <- <-.
    split; [apply correct_limit_in_range | apply correct_offset_in_range].
Qed.

Lemma paging_values_in_range_witness :
  JS.gt (JS.lit 100) (JS.lit 1000) = false /\
  JS.lt (JS.lit 0) (JS.lit 0) = false.
Proof.
  destruct paging_values_in_range as [_ [_ H]].
  destruct (H sample_runtime sample_world
              (get_request [("key", QStr "change-this-key"); ("limit", QStr "-7")])
              one_click_store (JS.lit 100) (JS.lit 0))
    as [[_ [_ Hl]] [_ Ho]].
  - vm_compute. reflexivity.
  - split; assumption.
Defined.

Lemma ADMIN_KEY_not_empty rt : ADMIN_KEY rt <> "".
Proof.
  unfold ADMIN_KEY, env_or.
  destruct (env_ADMIN_KEY rt) as [[|c s]|]; simpl; discriminate.
Qed.

(** X4. [/api/logs] serves a caller only when the [key] parameter (its
    first value when it is repeated) is the string [ADMIN_KEY], which is
    never empty: an empty environment variable gives the built-in key.
    Every other request is answered 401 before any statement is
    executed, and the store is left as it was. *)
Theorem api_logs_requires_admin_key
    (rt : Runtime) (w : World) (req : Request) (st : Store) :
  let key := first_if_array (assoc "key" (query req)) in
  ADMIN_KEY rt <> "" /\
  (key_refused rt key = false <-> key = Some (QStr (ADMIN_KEY rt))) /\
  (key <> Some (QStr (ADMIN_KEY rt)) ->
   api_logs rt w req st = (Normal (SendJson 401 json_unauthorized), st)).
Proof.
  intros key.
  assert (Hiff : key_refused rt key = false <-> key = Some (QStr (ADMIN_KEY rt))).
  { unfold key_refused. split.
    - intros H. apply orb_false_iff in H. destruct H as [_ H].
      apply negb_false_iff in H.
      destruct key as [[s | l | l]|]; try discriminate.
      apply String.eqb_eq in H. congruence.
    - intros ->. simpl. rewrite String.eqb_refl.
      pose proof (ADMIN_KEY_not_empty rt) as Hne.
      destruct (ADMIN_KEY rt); [congruence | reflexivity]. }
  split; [apply ADMIN_KEY_not_empty|]. split; [exact Hiff|].
  intros Hkey. apply api_logs_refused. fold key.
  apply not_false_is_true. intros Hk. apply Hkey. apply Hiff. exact Hk.
Qed.

Lemma api_logs_requires_admin_key_witness :
  api_logs sample_runtime sample_world
    (get_request [("key", QArr [QStr "guess"; QStr "change-this-key"])])
    one_click_store
  = (Normal (SendJson 401 json_unauthorized), one_click_store).
Proof.
  destruct (api_logs_requires_admin_key sample_runtime sample_world
              (get_request [("key", QArr [QStr "guess"; QStr "change-this-key"])])
              one_click_store) as [_ [_ H]].
  apply H. discriminate.
Defined.

(** X5. [/api/last] always answers and never raises: it executes its one
    SELECT and nothing else, leaves the table as it is, answers 500
    with [ok: false] when the engine fails, and otherwise 200 with
    [ok: true], where [data] is null when the engine returns no row. *)
Theorem api_last_always_answers (w : World) (st : Store) :
  exists status body,
    api_last w st = (Normal (SendJson status body), logged CallSelectLast st) /\
    (sql_fault w CallSelectLast = true -> status = 500%Z /\ body = json_not_ok) /\
    (sql_fault w CallSelectLast = false ->
       status = 200%Z /\ field body "ok" = VBool true /\
       (select_last w (rows st) = None -> field body "data" = VNull) /\
       (forall row, select_last w (rows st) = Some row ->
          field (field body "data") "id" = VStr (id row))).
Proof.
  unfold api_last, try_catch, bind, query_last, ret.
  destruct (sql_fault w CallSelectLast).
  - eexists _, _. split; [reflexivity|]. split; [auto | discriminate].
  - destruct (select_last w (rows st)) as [row|].
    + eexists _, _. split; [reflexivity|]. split; [discriminate|].
      intros _. repeat split; try discriminate.
      intros row' H. injection H as <-. reflexivity.
    + eexists _, _. split; [reflexivity|]. split; [discriminate|].
      intros _. repeat split. discriminate.
Qed.

Lemma api_last_always_answers_witness :
  fst (api_last sample_world empty_store)
  = Normal (SendJson 200 (VObj [("ok", VBool true); ("data", VNull)])).
Proof.
  destruct (api_last_always_answers sample_world empty_store)
    as [status [body [Hrun [_ Hok]]]].
  destruct (Hok eq_refl) as [Hs _].
  rewrite Hrun. vm_compute in Hrun. injection Hrun as <- <-. reflexivity.
Defined.

(** X6. [/api/logs] is read-only for every request, served or not: the
    rows and the columns of the table are unchanged, and the handler
    executes at most one statement, which is the paged SELECT. *)
Theorem api_logs_is_read_only
    (rt : Runtime) (w : World) (req : Request) (st : Store) :
  rows (snd (api_logs rt w req st)) = rows st /\
  schema (snd (api_logs rt w req st)) = schema st /\
  (journal (snd (api_logs rt w req st)) = journal st \/
   exists limit offset,
     journal (snd (api_logs rt w req st))
     = journal st ++ [CallSelectLogs limit offset]).
Proof.
  split; [apply (reading_keeps_rows rt w req st)|]. split.
  - destruct (key_refused rt (first_if_array (assoc "key" (query req)))) eqn:Hk.
    { rewrite (api_logs_refused _ _ _ _ Hk). reflexivity. }
    destruct (number_param (first_if_array (assoc "limit" (query req))) 100)
      as [n|e] eqn:Hn.
    2: { rewrite (api_logs_throw_limit _ _ _ _ _ Hk Hn). reflexivity. }
    destruct (number_param (first_if_array (assoc "offset" (query req))) 0)
      as [m|e] eqn:Hm.
    2: { rewrite (api_logs_throw_offset _ _ _ _ _ _ Hk Hn Hm). reflexivity. }
    rewrite (api_logs_run _ _ _ _ _ _ Hk Hn Hm). simpl.
    destruct (sql_fault w _); reflexivity.
  - destruct (api_logs_journal rt w req st) as [H | [n [m H]]]; eauto.
Qed.

(** ** The client address *)

Lemma before_comma_no_comma l : ~ In ","%char (before_comma l).
Proof.
  induction l as [|c l IH]; simpl; [tauto|].
  destruct (Ascii.eqb c ",") eqn:E; simpl; [tauto|].
  intros [H | H]; [|exact (IH H)].
  subst c. discriminate.
Qed.

Lemma drop_white_incl l c : In c (JS.drop_white l) -> In c l.
Proof.
  induction l as [|x l IH]; simpl; [tauto|].
  destruct (JS.is_white x); simpl; tauto.
Qed.

Lemma drop_white_head l c l' :
  JS.drop_white l = c :: l' -> JS.is_white c = false.
Proof.
  induction l as [|x l IH]; simpl; [discriminate|].
  destruct (JS.is_white x) eqn:E; [exact IH|].
  intros H. injection H as <- _. exact E.
Qed.

Lemma drop_white_keeps_last l c :
  JS.is_white c = false -> exists m, JS.drop_white (l ++ [c]) = m ++ [c].
Proof.
  intros Hc. induction l as [|x l IH]; simpl.
  - rewrite Hc. exists []. reflexivity.
  - destruct (JS.is_white x); [exact IH|]. exists (x :: l). reflexivity.
Qed.

Lemma trim_incl l c : In c (JS.trim l) -> In c l.
Proof.
  unfold JS.trim. intros H. apply in_rev in H.
  apply drop_white_incl in H. apply in_rev in H.
  apply drop_white_incl in H. exact H.
Qed.

Lemma trim_head l c l' : JS.trim l = c :: l' -> JS.is_white c = false.
Proof.
  unfold JS.trim. destruct (JS.drop_white l) as [|c0 d] eqn:Hd.
  - simpl. discriminate.
  - pose proof (drop_white_head l c0 d Hd) as Hc0. simpl rev.
    destruct (drop_white_keeps_last (rev d) c0 Hc0) as [m Hm].
    rewrite Hm, rev_app_distr. simpl. intros H. injection H as <- _. exact Hc0.
Qed.

Lemma trim_last l c l' : JS.trim l = l' ++ [c] -> JS.is_white c = false.
Proof.
  unfold JS.trim. intros H.
  apply (f_equal (@rev ascii)) in H.
  rewrite rev_involutive, rev_app_distr in H. simpl in H.
  exact (drop_white_head _ _ _ H).
Qed.

(** X7. When the request carries a non-empty [x-forwarded-for] header,
    the client address is the first entry of that header, trimmed: it
    is taken from the header alone (the address of the socket is not
    consulted), it holds no comma, and it neither starts nor ends with
    white space. *)
Theorem getClientIp_first_forwarded_entry (req : Request) (xff : string)
    (Hxff : header req "x-forwarded-for" = Some xff) (Hne : xff <> "") :
  let ip_ := list_ascii_of_string (getClientIp req) in
  ip_ = JS.trim (before_comma (list_ascii_of_string xff)) /\
  ~ In ","%char ip_ /\
  (forall c l, ip_ = c :: l -> JS.is_white c = false) /\
  (forall c l, ip_ = l ++ [c] -> JS.is_white c = false).
Proof.
  intros ip_.
  assert (Hip : ip_ = JS.trim (before_comma (list_ascii_of_string xff))).
  { unfold ip_, getClientIp. rewrite Hxff.
    destruct xff as [|c x]; [congruence|]. simpl Nat.ltb.
    apply list_ascii_of_string_of_list_ascii. }
  split; [exact Hip|]. rewrite Hip. split; [|split].
  - intros H. apply trim_incl in H. exact (before_comma_no_comma _ H).
  - intros c l. apply trim_head.
  - intros c l. apply trim_last.
Qed.

Lemma getClientIp_first_forwarded_entry_witness :
  getClientIp
    {| query := []; headers := [("x-forwarded-for", " 198.51.100.7 , 10.0.0.1")];
       cookies := None; req_body := [];
       remoteAddress := Some "10.0.0.1"; req_ip := None |}
  = "198.51.100.7".
Proof.
  destruct (getClientIp_first_forwarded_entry
              {| query := []; headers := [("x-forwarded-for", " 198.51.100.7 , 10.0.0.1")];
                 cookies := None; req_body := [];
                 remoteAddress := Some "10.0.0.1"; req_ip := None |}
              " 198.51.100.7 , 10.0.0.1" eq_refl) as [H _].
  - discriminate.
  - rewrite <- (string_of_list_ascii_of_string (getClientIp _)).
    cbv zeta in H. rewrite H. reflexivity.
Defined.

(** ** Click capture, further *)

(** What the guarded insertion leaves, read off its result. *)
Lemma guarded_insert_facts w r st st' :
  try_catch (insertClickStmt_run w r) (fun _ => ret tt) st = (Normal tt, st') ->
  journal st' = journal st ++ [CallInsert r] /\
  schema st' = schema st /\
  (sql_fault w (CallInsert r) = false -> has_id (r_id r) (rows st) = false ->
     rows st' = rows st ++ [row_of_record r]) /\
  (sql_fault w (CallInsert r) = true \/ has_id (r_id r) (rows st) = true ->
     rows st' = rows st).
Proof.
  intros H. destruct (guarded_insert w r st) as [st'' [H' Hfacts]].
  rewrite H in H'. injection H' as <-. exact Hfacts.
Qed.

(** The outcome of the capture handler on any request. *)
Lemma track_outcome rt w req st :
  (exists e, rawDest req = Throw e /\ track rt w req st = (Throw e, st)) \/
  (exists raw destUrl st',
     rawDest req = Normal raw /\
     destUrl_of rt (String.eqb raw sentinel) raw = Normal destUrl /\
     track rt w req st =
       (Normal (if String.eqb raw sentinel
                then SendHtml [cid_cookie (generateId w)] GeolocationPage
                else Redirect 302 destUrl), st') /\
     try_catch (insertClickStmt_run w
                  (click_record w req (generateId w) (now_iso w) (getClientIp req)
                     (approx_of w (getClientIp req)) (String.eqb raw sentinel)
                     raw destUrl))
               (fun _ => ret tt) st = (Normal tt, st')).
Proof.
  destruct (rawDest req) as [raw|e] eqn:Hraw.
  - right.
    destruct (destUrl_of_returns rt (String.eqb raw sentinel) raw) as [d Hd].
    destruct (track_run rt w req st raw d Hraw Hd) as [st' [Hrun Hins]].
    exists raw, d, st'. auto.
  - left. exists e. split; [reflexivity|]. unfold track.
    apply bind_throw. rewrite lift_run, Hraw. reflexivity.
Qed.

(** The validator on a text that is not empty: the canonical text of
    the URL when the text is short enough, parses and has scheme http
    or https, and the fallback in each of the three other cases. *)
Lemma safeRedirectUrl_on_text rt s d :
  s <> EmptyString ->
  safeRedirectUrl rt (VStr s) = Normal d ->
  (exists u,
     String.length s <= 2048 /\ url_parse rt s = Some u /\
     (protocol u = "http:" \/ protocol u = "https:") /\ d = href u) \/
  (d = REDIRECT_DEFAULT rt /\
   (2048 < String.length s \/ url_parse rt s = None \/
    exists u, url_parse rt s = Some u /\
              protocol u <> "http:" /\ protocol u <> "https:")).
Proof.
  intros Hs. unfold safeRedirectUrl, new_URL.
  destruct s as [|c s']; [congruence|]. cbn [truthy JS.string_truthy negb].
  set (s := String c s') in *.
  destruct (Nat.ltb 2048 (String.length s)) eqn:Hlen.
  { intros H. injection H as <-. right. apply Nat.ltb_lt in Hlen. auto. }
  apply Nat.ltb_ge in Hlen.
  destruct (url_parse rt s) as [u|] eqn:Hu;
    [|intros H; injection H as <-; right; auto].
  destruct (String.eqb (protocol u) "http:") eqn:E1; simpl.
  - intros H. injection H as <-. left. exists u.
    apply String.eqb_eq in E1. auto.
  - destruct (String.eqb (protocol u) "https:") eqn:E2; simpl.
    + intros H. injection H as <-. left. exists u.
      apply String.eqb_eq in E2. auto.
    + intros H. injection H as <-. right. split; [reflexivity|].
      right. right. exists u.
      apply String.eqb_neq in E1. apply String.eqb_neq in E2. auto.
Qed.

Lemma REDIRECT_DEFAULT_not_empty rt : REDIRECT_DEFAULT rt <> EmptyString.
Proof.
  unfold REDIRECT_DEFAULT, env_or.
  destruct (env_REDIRECT_DEFAULT rt) as [[|c s]|]; simpl; discriminate.
Qed.

(** X8. Every redirect the capture handler issues is a 302, and its
    target is decided by one text [s]: the supplied destination when it
    is not empty, the configured fallback when none is supplied.  When
    [s] has at most 2048 code units and parses as a URL of scheme http
    or https, the target is the canonical text of that URL.  In every
    other case ([s] too long, not a URL, or of another scheme) the
    target is the fallback exactly as configured; the fallback is not
    itself checked on that path. *)
Theorem track_redirect_target_is_safe
    (rt : Runtime) (w : World) (req : Request) (st : Store)
    (status : Z) (target : option string)
    (Hresp : fst (track rt w req st) = Normal (Redirect status target)) :
  status = 302%Z /\
  exists raw s d,
    rawDest req = Normal raw /\ raw <> sentinel /\ target = Some d /\
    (raw <> EmptyString -> s = raw) /\
    (raw = EmptyString -> s = REDIRECT_DEFAULT rt) /\
    ((exists u,
        String.length s <= 2048 /\ url_parse rt s = Some u /\
        (protocol u = "http:" \/ protocol u = "https:") /\ d = href u) \/
     (d = REDIRECT_DEFAULT rt /\
      (2048 < String.length s \/ url_parse rt s = None \/
       exists u, url_parse rt s = Some u /\
                 protocol u <> "http:" /\ protocol u <> "https:"))).
Proof.
  destruct (track_outcome rt w req st)
    as [[e [_ Hrun]] | [raw [destUrl [st' [Hraw [Hd [Hrun _]]]]]]];
    rewrite Hrun in Hresp; simpl in Hresp; [discriminate|].
  destruct (String.eqb raw sentinel) eqn:Hs; [discriminate|].
  injection Hresp as <- <-. split; [reflexivity|].
  unfold destUrl_of, cbind in Hd.
  destruct (safeRedirectUrl rt (validator_input rt raw)) as [d|] eqn:Hv;
    [|discriminate].
  injection Hd as <-.
  exists raw, (if JS.string_truthy raw then raw else REDIRECT_DEFAULT rt), d.
  split; [exact Hraw|]. split; [apply String.eqb_neq; exact Hs|].
  split; [reflexivity|].
  split; [destruct raw; [congruence | reflexivity]|].
  split; [intros ->; reflexivity|].
  apply safeRedirectUrl_on_text; [|exact Hv].
  destruct raw; [apply REDIRECT_DEFAULT_not_empty | discriminate].
Qed.

(** A destination of scheme [javascript:] is answered by a redirect to
    the fallback. *)
Lemma track_redirect_target_is_safe_witness :
  exists d,
    fst (track sample_runtime sample_world
           (get_request [("u", QStr "javascript:alert(1)")]) empty_store)
    = Normal (Redirect 302 (Some d)) /\
    d = REDIRECT_DEFAULT sample_runtime.
Proof.
  destruct (track_redirect_target_is_safe sample_runtime sample_world
              (get_request [("u", QStr "javascript:alert(1)")]) empty_store
              302 (Some "https://example.com"))
    as [_ [raw [s [d [Hraw [_ [Ht [Hs [_ Hcase]]]]]]]]].
  - vm_compute. reflexivity.
  - vm_compute in Hraw. injection Hraw as <-.
    rewrite Hs in Hcase by discriminate.
    exists d. split; [vm_compute; congruence|].
    destruct Hcase as [[u [_ [Hu [Hp _]]]] | [Hd _]]; [|exact Hd].
    vm_compute in Hu. injection Hu as <-.
    destruct Hp as [Hp | Hp]; vm_compute in Hp; discriminate.
Defined.

(** X9. A lookup of the client address that misses or throws, and an
    empty client address, never make the capture handler fail.  Either
    the destination parameter cannot be converted to a string, and the
    handler raises that conversion error before anything else: no
    record is built and the store is as it was.  Or the handler
    answers, and the one record it hands to the INSERT has null in all
    six approximate columns. *)
Theorem lookup_failure_gives_no_location
    (rt : Runtime) (w : World) (req : Request) (st : Store)
    (Hmiss : getClientIp req = EmptyString \/
             geoip_lookup w (getClientIp req) = Normal None \/
             exists e, geoip_lookup w (getClientIp req) = Throw e) :
  (exists e, rawDest req = Throw e /\ track rt w req st = (Throw e, st)) \/
  (exists response record,
     fst (track rt w req st) = Normal response /\
     journal (snd (track rt w req st)) = journal st ++ [CallInsert record] /\
     r_approx_country record = None /\ r_approx_region record = None /\
     r_approx_city record = None /\ r_approx_lat record = None /\
     r_approx_lon record = None /\ r_approx_accuracy_km record = None).
Proof.
  assert (Happrox : approx_of w (getClientIp req) = None).
  { unfold approx_of. destruct Hmiss as [H | [H | [e H]]].
    - rewrite H. reflexivity.
    - rewrite H. destruct (JS.string_truthy _); reflexivity.
    - rewrite H. destruct (JS.string_truthy _); reflexivity. }
  destruct (track_outcome rt w req st)
    as [[e [He Hrun]] | [raw [destUrl [st' [_ [_ [Hrun Hins]]]]]]].
  - left. exists e. auto.
  - right. rewrite Hrun. simpl.
    destruct (guarded_insert_facts _ _ _ _ Hins) as [Hj _].
    eexists. eexists. split; [reflexivity|]. split; [exact Hj|].
    rewrite Happrox. simpl. auto 7.
Qed.

(** A request without forwarded or socket address is answered, and its
    record has no approximate latitude. *)
Lemma lookup_failure_gives_no_location_witness :
  exists response record,
    fst (track sample_runtime sample_world empty_request empty_store)
      = Normal response /\
    journal (snd (track sample_runtime sample_world empty_request empty_store))
      = [CallInsert record] /\
    r_approx_lat record = None.
Proof.
  destruct (lookup_failure_gives_no_location sample_runtime sample_world
              empty_request empty_store)
    as [[e [He _]] | [response [record [Hr [Hj [_ [_ [_ [Hlat _]]]]]]]]].
  - right. left. reflexivity.
  - vm_compute in He. discriminate.
  - exists response, record. auto.
Defined.

(** X10. The capture handler only ever appends: the columns of the table
    and every stored row are left as they were, and at most one row is
    added.  The added row has an identifier that was not in the table,
    its precise coordinates are null and [consented] is 0, so it is
    reported with source [ip] until an enrichment arrives. *)
Theorem track_appends_at_most_one_row
    (rt : Runtime) (w : World) (req : Request) (st : Store) :
  schema (snd (track rt w req st)) = schema st /\
  (rows (snd (track rt w req st)) = rows st \/
   exists record,
     rows (snd (track rt w req st)) = rows st ++ [row_of_record record] /\
     journal (snd (track rt w req st)) = journal st ++ [CallInsert record] /\
     has_id (r_id record) (rows st) = false /\
     precise_lat (row_of_record record) = None /\
     precise_lon (row_of_record record) = None /\
     consented (row_of_record record) = Some (JS.lit 0) /\
     field (last_coords (row_of_record record)) "source" = VStr "ip" /\
     field (logs_entry (row_of_record record)) "consented" = VBool false).
Proof.
  destruct (track_outcome rt w req st)
    as [[e [_ Hrun]] | [raw [destUrl [st' [_ [_ [Hrun Hins]]]]]]];
    rewrite Hrun; simpl; [auto|].
  destruct (guarded_insert_facts _ _ _ _ Hins) as [Hj [Hs [Hok Hko]]].
  split; [exact Hs|].
  destruct (sql_fault w _) eqn:Hf; [left; apply Hko; auto|].
  destruct (has_id _ (rows st)) eqn:Hid; [left; apply Hko; auto|].
  right. eexists. split; [apply Hok; auto|]. split; [exact Hj|].
  split; [exact Hid|]. repeat split.
Qed.

(** X11. No handler breaks the primary key: if no two rows share an
    identifier before a request, none do after it, whatever the request
    and whatever the engine does.  A click whose fresh identifier is
    already taken stores nothing. *)
Theorem handlers_keep_primary_key
    (rt : Runtime) (w : World) (req : Request) (st : Store)
    (Hpk : primary_key (rows st)) :
  primary_key (rows (snd (track rt w req st))) /\
  primary_key (rows (snd (api_geo rt w req st))) /\
  primary_key (rows (snd (api_last w st))) /\
  primary_key (rows (snd (api_logs rt w req st))) /\
  primary_key (rows (snd (migrate w st))) /\
  (has_id (generateId w) (rows st) = true ->
   rows (snd (track rt w req st)) = rows st).
Proof.
  split; [apply track_preserves_primary_key; exact Hpk|].
  split; [apply api_geo_preserves_primary_key; exact Hpk|].
  destruct (reading_keeps_rows rt w req st) as [Hlast Hlogs].
  split; [rewrite Hlast; exact Hpk|].
  split; [rewrite Hlogs; exact Hpk|].
  split.
  - rewrite migrate_run. destruct (sql_fault w CallTableInfo); exact Hpk.
  - intros Htaken.
    destruct (track_outcome rt w req st)
      as [[e [_ Hrun]] | [raw [destUrl [st' [_ [_ [Hrun Hins]]]]]]];
      rewrite Hrun; simpl; [reflexivity|].
    destruct (guarded_insert_facts _ _ _ _ Hins) as [_ [_ [_ Hko]]].
    apply Hko. right. exact Htaken.
Qed.

Lemma handlers_keep_primary_key_witness :
  rows (snd (track sample_runtime sample_world empty_request one_click_store))
  = rows one_click_store.
Proof.
  destruct (handlers_keep_primary_key sample_runtime sample_world
              empty_request one_click_store) as [_ [_ [_ [_ [_ H]]]]].
  - unfold primary_key. vm_compute. constructor; [intros []|constructor].
  - apply H. reflexivity.
Defined.

(** ** Enrichment, further *)

Lemma update_where_id_app p t1 t2 :
  update_where_id p (t1 ++ t2) = update_where_id p t1 ++ update_where_id p t2.
Proof. unfold update_where_id. apply map_app. Qed.

Lemma update_twice p1 p2 t :
  g_id p1 = g_id p2 ->
  update_where_id p2 (update_where_id p1 t) = update_where_id p2 t.
Proof.
  intros Hid. unfold update_where_id. rewrite map_map.
  apply map_ext. intros r. rewrite Hid.
  destruct (String.eqb (id r) (g_id p2)) eqn:E; simpl; rewrite E; reflexivity.
Qed.

(** A 200 answer of the enrichment handler: the token was present, the
    payload converted and the UPDATE went through. *)
Lemma api_geo_success rt w req st :
  fst (api_geo rt w req st) = Normal (SendJson 200 json_ok) ->
  exists cid p,
    truthy_string (cid_of req) = Some cid /\
    geo_params rt w cid (req_body req) = Normal p /\
    sql_fault w (CallUpdate p) = false.
Proof.
  intros H.
  destruct (truthy_string (cid_of req)) as [cid|] eqn:Hcid.
  - destruct (geo_params rt w cid (req_body req)) as [p|e] eqn:Hp.
    + rewrite (api_geo_run rt w req st cid p Hcid Hp) in H.
      destruct (sql_fault w (CallUpdate p)) eqn:Hf; [discriminate|].
      exists cid, p. auto.
    + rewrite (api_geo_throw rt w req st cid e Hcid Hp) in H. discriminate.
  - unfold api_geo in H. rewrite Hcid in H. discriminate.
Qed.

Lemma api_geo_rows rt w req st :
  rows (snd (api_geo rt w req st)) = rows st \/
  exists cid p,
    truthy_string (cid_of req) = Some cid /\ g_id p = cid /\
    rows (snd (api_geo rt w req st)) = update_where_id p (rows st).
Proof.
  destruct (truthy_string (cid_of req)) as [cid|] eqn:Hcid.
  - destruct (geo_params rt w cid (req_body req)) as [p|e] eqn:Hp.
    + rewrite (api_geo_run rt w req st cid p Hcid Hp).
      destruct (sql_fault w (CallUpdate p)); simpl; [auto|].
      right. exists cid, p. split; [reflexivity|].
      split; [exact (geo_params_id _ _ _ _ _ Hp) | reflexivity].
    + rewrite (api_geo_throw rt w req st cid e Hcid Hp). auto.
  - unfold api_geo. rewrite Hcid. auto.
Qed.

(** X12. The correlation round trip.  After a bait click whose fresh
    identifier is not empty nor taken and whose row the engine stores,
    an enrichment that carries the cookie of that click, converts and
    is not refused by the engine succeeds and rewrites exactly the row
    that click created: the rows that were there before are unchanged
    and the new row holds the enrichment. *)
Theorem bait_click_then_enrichment
    (rt : Runtime) (w1 w2 : World) (req1 req2 : Request) (st : Store)
    (p : GeoParams)
    (Hbait : rawDest req1 = Normal sentinel)
    (Hid : generateId w1 <> "")
    (Hfresh : has_id (generateId w1) (rows st) = false)
    (Hins : forall r, sql_fault w1 (CallInsert r) = false)
    (Hcookie : cid_of req2 = Some (generateId w1))
    (Hp : geo_params rt w2 (generateId w1) (req_body req2) = Normal p)
    (Hupd : sql_fault w2 (CallUpdate p) = false) :
  let st1 := snd (track rt w1 req1 st) in
  exists record,
    fst (track rt w1 req1 st)
      = Normal (SendHtml [cid_cookie (r_id record)] GeolocationPage) /\
    cid_of req2 = Some (r_id record) /\
    rows st1 = rows st ++ [row_of_record record] /\
    fst (api_geo rt w2 req2 st1) = Normal (SendJson 200 json_ok) /\
    rows (snd (api_geo rt w2 req2 st1))
      = rows st ++ [set_geo p (row_of_record record)].
Proof.
  intros st1. subst st1.
  destruct (track_outcome rt w1 req1 st)
    as [[e [He _]] | [raw [destUrl [st' [Hraw [_ [Hrun Hinsert]]]]]]];
    [congruence|].
  assert (raw = sentinel) by congruence. subst raw.
  rewrite String.eqb_refl in Hrun, Hinsert.
  destruct (guarded_insert_facts _ _ _ _ Hinsert) as [_ [_ [Hok _]]].
  specialize (Hok (Hins _) Hfresh).
  match type of Hok with _ = _ ++ [row_of_record ?r] => exists r end.
  rewrite Hrun. simpl fst. simpl snd.
  split; [reflexivity|]. split; [exact Hcookie|]. split; [exact Hok|].
  assert (Hc : truthy_string (cid_of req2) = Some (generateId w1))
    by (apply truthy_string_some; auto).
  rewrite (api_geo_run rt w2 req2 st' _ p Hc Hp), Hupd. simpl.
  split; [reflexivity|].
  rewrite Hok, update_where_id_app.
  pose proof (geo_params_id _ _ _ _ _ Hp) as Hgid.
  assert (Habs : has_id (g_id p) (rows st) = false) by (rewrite Hgid; exact Hfresh).
  destruct (update_absent p (rows st) Habs) as [_ ->].
  unfold update_where_id. simpl. rewrite Hgid, String.eqb_refl. reflexivity.
Qed.

Lemma bait_click_then_enrichment_witness :
  let st1 := snd (track sample_runtime sample_world
                    (get_request [("u", QStr "view-transaction")]) empty_store) in
  map (fun r => (precise_lat r, consented r))
      (rows (snd (api_geo sample_runtime sample_world
                    (geo_request sample_id example_payload) st1)))
  = [(Some (JS.StringToNumber "10.5"), Some (JS.lit 1))].
Proof.
  edestruct (bait_click_then_enrichment sample_runtime sample_world sample_world
               (get_request [("u", QStr "view-transaction")])
               (geo_request sample_id example_payload) empty_store)
    as [record [_ [_ [_ [_ Hrows]]]]].
  - reflexivity.
  - discriminate.
  - reflexivity.
  - reflexivity.
  - reflexivity.
  - vm_compute. reflexivity.
  - reflexivity.
  - cbv zeta in *. rewrite Hrows. reflexivity.
Defined.

(** X13. The last enrichment wins.  When two enrichments carry the same
    token and the second succeeds, the table after both is the table
    the second alone would have left: nothing of the first report
    survives, whatever it was and whether it succeeded or not. *)
Theorem second_enrichment_overwrites_first
    (rt : Runtime) (w1 w2 : World) (req1 req2 : Request) (st : Store)
    (Htoken : cid_of req1 = cid_of req2)
    (Hsecond : fst (api_geo rt w2 req2 st) = Normal (SendJson 200 json_ok)) :
  let st1 := snd (api_geo rt w1 req1 st) in
  fst (api_geo rt w2 req2 st1) = Normal (SendJson 200 json_ok) /\
  rows (snd (api_geo rt w2 req2 st1)) = rows (snd (api_geo rt w2 req2 st)).
Proof.
  intros st1.
  destruct (api_geo_success rt w2 req2 st Hsecond) as [cid [p2 [Hcid [Hp Hf]]]].
  rewrite (api_geo_run rt w2 req2 st1 cid p2 Hcid Hp).
  rewrite (api_geo_run rt w2 req2 st cid p2 Hcid Hp).
  rewrite Hf. simpl. split; [reflexivity|].
  subst st1.
  destruct (api_geo_rows rt w1 req1 st) as [-> | [cid1 [p1 [Hcid1 [Hg1 ->]]]]];
    [reflexivity|].
  apply update_twice.
  rewrite Htoken, Hcid in Hcid1. injection Hcid1 as <-.
  rewrite Hg1. symmetry. exact (geo_params_id _ _ _ _ _ Hp).
Qed.

Lemma second_enrichment_overwrites_first_witness :
  map precise_lat
    (rows (snd (api_geo sample_runtime sample_world (geo_request sample_id [])
                  (snd (api_geo sample_runtime sample_world
                          (geo_request sample_id example_payload)
                          one_click_store)))))
  = [None].
Proof.
  destruct (second_enrichment_overwrites_first sample_runtime sample_world
              sample_world (geo_request sample_id example_payload)
              (geo_request sample_id []) one_click_store eq_refl) as [_ H].
  - vm_compute. reflexivity.
  - cbv zeta in H. rewrite H. reflexivity.
Defined.

Lemma geo_params_numbers rt w cid b p :
  geo_params rt w cid b = Normal p ->
  g_precise_lat p = number_or_null (prop b "lat") /\
  g_precise_lon p = number_or_null (prop b "lon") /\
  g_consented p = flag (prop b "consented").
Proof.
  unfold geo_params, cbind. intros H.
  repeat match type of H with
         | match ?c with _ => _ end = _ => destruct c; try discriminate
         end.
  injection H as <-. auto.
Qed.

(** X14. What is read back after an enrichment.  For the row an
    enrichment rewrites: when the payload holds numbers for both [lat]
    and [lon], both reading handlers report those two numbers with
    source [browser]; when either is not a number, they report the
    approximate pair of the row with source [ip], also if the row held
    precise coordinates before; and the paged list reports [consented]
    as the truthiness of the payload's [consented]. *)
Theorem enriched_row_is_read_back
    (rt : Runtime) (w : World) (cid : string) (b : list (string * value))
    (p : GeoParams) (r : Row)
    (Hp : geo_params rt w cid b = Normal p) :
  (forall la lo, prop b "lat" = VNum la -> prop b "lon" = VNum lo ->
     forall c, c = last_coords (set_geo p r) \/ c = logs_best (set_geo p r) ->
     field c "lat" = VNum la /\ field c "lon" = VNum lo /\
     field c "source" = VStr "browser") /\
  (is_number (prop b "lat") = false \/ is_number (prop b "lon") = false ->
     forall c, c = last_coords (set_geo p r) \/ c = logs_best (set_geo p r) ->
     field c "lat" = num_cell (approx_lat r) /\
     field c "lon" = num_cell (approx_lon r) /\
     field c "source" = VStr "ip") /\
  field (logs_entry (set_geo p r)) "consented"
    = VBool (truthy (prop b "consented")).
Proof.
  destruct (geo_params_numbers rt w cid b p Hp) as [Hlat [Hlon Hcons]].
  split; [|split].
  - intros la lo Hla Hlo c Hc.
    assert (Hb : best_available (set_geo p r) c)
      by (destruct Hc as [-> | ->]; [apply last_coords_best | apply logs_best_best]).
    apply (proj1 Hb); simpl.
    + rewrite Hlat, Hla. reflexivity.
    + rewrite Hlon, Hlo. reflexivity.
  - intros Hnot c Hc.
    assert (Hb : best_available (set_geo p r) c)
      by (destruct Hc as [-> | ->]; [apply last_coords_best | apply logs_best_best]).
    apply (proj2 Hb). simpl. rewrite Hlat, Hlon.
    destruct Hnot as [H | H];
      [left; destruct (prop b "lat") | right; destruct (prop b "lon")];
      simpl in *; congruence.
  - simpl. rewrite Hcons. unfold flag.
    destruct (truthy (prop b "consented")); reflexivity.
Qed.

Lemma enriched_row_is_read_back_witness :
  exists p,
    geo_params sample_runtime sample_world sample_id example_payload = Normal p /\
    field (logs_entry (set_geo p sample_row)) "consented" = VBool true /\
    field (last_coords (set_geo p sample_row)) "source" = VStr "browser".
Proof.
  eexists. split; [vm_compute; reflexivity|].
  edestruct (enriched_row_is_read_back sample_runtime sample_world sample_id
               example_payload) as [Hnum [_ Hcons]]; [vm_compute; reflexivity|].
  split; [apply Hcons|].
  eapply Hnum; [reflexivity | reflexivity | left; reflexivity].
Defined.

(** ** Migration and startup, further *)

Lemma added_until_fault_prefix w l :
  exists rest, l = added_until_fault w l ++ rest.
Proof.
  induction l as [|c l [rest IH]]; simpl.
  - exists []. reflexivity.
  - destruct (sql_fault w (alter_of c)).
    + exists (c :: l). reflexivity.
    + exists rest. simpl. rewrite <- IH. reflexivity.
Qed.

Lemma missing_columns_facts names :
  incl (missing_columns names) added_columns /\
  (forall c, In c (missing_columns names) -> ~ In (fst c) names) /\
  NoDup (map fst (missing_columns names)).
Proof.
  unfold missing_columns. split; [|split].
  - intros c Hc. apply filter_In in Hc. tauto.
  - intros c Hc. apply filter_In in Hc. destruct Hc as [_ Hc].
    apply negb_true_iff in Hc. apply existsb_eqb_false. exact Hc.
  - apply NoDup_map_filter. exact added_columns_distinct.
Qed.

(** X15. The migration only appends columns and never creates a
    duplicate: whatever the engine does, the columns that were there
    stay in place, every column added is one of the thirteen of the
    [addCol] calls and was missing, and if the column names were
    distinct before they are distinct after. *)
Theorem migration_appends_distinct_columns (w : World) (st : Store) :
  exists added,
    schema (snd (migrate w st)) = schema st ++ added /\
    incl added added_columns /\
    (forall c, In c added -> ~ In (fst c) (column_names st)) /\
    (NoDup (column_names st) -> NoDup (column_names (snd (migrate w st)))).
Proof.
  destruct (missing_columns_facts (column_names st)) as [Hincl [Hfresh Hnd]].
  destruct (added_until_fault_prefix w (missing_columns (column_names st)))
    as [rest Hrest].
  assert (Hsub : incl (added_until_fault w (missing_columns (column_names st)))
                      (missing_columns (column_names st))).
  { intros c Hc. rewrite Hrest. apply in_or_app. left. exact Hc. }
  assert (Hnd' : NoDup (map fst (added_until_fault w
                                   (missing_columns (column_names st))))).
  { rewrite Hrest, map_app in Hnd. exact (NoDup_app_remove_r _ _ Hnd). }
  rewrite migrate_run. destruct (sql_fault w CallTableInfo).
  - exists []. simpl. rewrite app_nil_r.
    repeat split; auto; try (intros c []).
  - exists (added_until_fault w (missing_columns (column_names st))). simpl.
    split; [reflexivity|]. split; [intros c Hc; apply Hincl, Hsub, Hc|].
    split; [intros c Hc; apply Hfresh, Hsub, Hc|].
    intros Hdistinct. unfold column_names. simpl. rewrite map_app.
    apply NoDup_app; [exact Hdistinct | exact Hnd' |].
    intros x Hx Hx'. apply in_map_iff in Hx'. destruct Hx' as [c [<- Hc]].
    exact (Hfresh c (Hsub c Hc) Hx).
Qed.

Lemma migration_appends_distinct_columns_witness :
  NoDup (column_names (snd (migrate (faulty_world ip_chain_fails) old_store))).
Proof.
  destruct (migration_appends_distinct_columns (faulty_world ip_chain_fails) old_store)
    as [added [_ [_ [_ H]]]].
  apply H. vm_compute.
  repeat (constructor; [simpl; intuition discriminate|]). constructor.
Defined.

(** Inclusion of one list of names in another, by computation. *)
Lemma incl_by_computation (l l' : list string) :
  forallb (fun c => existsb (String.eqb c) l') l = true -> incl l l'.
Proof.
  intros H c Hc. apply existsb_eqb_true.
  exact (proj1 (forallb_forall _ _) H c Hc).
Qed.

(** X16. The migration provides what the two prepared statements need.
    Every column [insertClickStmt] and [updateGeoStmt] name is a column
    of the CREATE TABLE statement.  On a table that has at least the
    columns no [addCol] call names, a migration in which no statement
    fails leaves every column the two statements name in the table. *)
Theorem migration_provides_statement_columns
    (w : World) (st : Store)
    (Hengine : forall c, sql_fault w c = false)
    (Hbase : forall c, In c base_columns -> In c (column_names st)) :
  incl (insert_columns ++ update_columns) (map fst clicks_columns) /\
  forall c, In c (insert_columns ++ update_columns) ->
            In c (column_names (snd (migrate w st))).
Proof.
  split; [apply incl_by_computation; vm_compute; reflexivity|].
  intros c Hc.
  assert (Hsplit : In c (base_columns ++ map fst added_columns))
    by (revert c Hc; apply incl_by_computation; vm_compute; reflexivity).
  apply in_app_or in Hsplit. destruct Hsplit as [H | H].
  - rewrite migrate_run, Hengine. unfold column_names. simpl.
    rewrite map_app. apply in_or_app. left. apply Hbase. exact H.
  - apply in_map_iff in H. destruct H as [col [<- Hcol]].
    apply (migrate_makes_current w st Hengine). exact Hcol.
Qed.

(** A table made before [ip_chain] and [accept_language] existed has
    [ip_chain] after the migration. *)
Lemma migration_provides_statement_columns_witness :
  ~ In "ip_chain" (column_names old_store) /\
  In "ip_chain" (column_names (snd (migrate sample_world old_store))).
Proof.
  split.
  - apply existsb_eqb_false. vm_compute. reflexivity.
  - destruct (migration_provides_statement_columns sample_world old_store)
      as [_ H].
    + intros c. reflexivity.
    + apply incl_by_computation. vm_compute. reflexivity.
    + apply H. apply existsb_eqb_true. vm_compute. reflexivity.
Defined.

(** ** Answers and the engine *)

(** Whether the payload converts does not depend on the world: the
    world only supplies the clock. *)
Lemma geo_params_outcome rt w1 w2 cid b :
  match geo_params rt w1 cid b, geo_params rt w2 cid b with
  | Normal _, Normal _ => True
  | Throw e1, Throw e2 => e1 = e2
  | _, _ => False
  end.
Proof.
  unfold geo_params, cbind.
  destruct (truthy (prop b "timestamp"));
    [destruct (ToString rt (prop b "timestamp")); [|reflexivity]|];
    destruct (string_or_null rt (prop b "platform")); try reflexivity;
    destruct (string_or_null rt (prop b "vendor")); try reflexivity;
    destruct (string_or_null rt (prop b "language")); try reflexivity;
    destruct (joined_or_null rt (prop b "languages")); try reflexivity;
    destruct (string_or_null rt (prop b "timezone")); try reflexivity;
    exact I.
Qed.

(** X17. What the answers depend on.  The answer of the capture handler
    is decided by the request, the configuration and the fresh
    identifier: two runs with the same identifier answer alike whatever
    the table holds, whatever the engine does, whatever the clock and
    the address lookup give.  The answer of the enrichment handler
    depends on the table and the engine only through a raising UPDATE:
    two runs on the same request answer alike unless one of them is the
    500 of the handler's catch.  So an answer other than that 500 does
    not tell whether the token names a stored click. *)
Theorem answers_depend_on_engine_only_through_failure
    (rt : Runtime) (req : Request) (w1 w2 : World) (st1 st2 : Store) :
  (generateId w1 = generateId w2 ->
   fst (track rt w1 req st1) = fst (track rt w2 req st2)) /\
  (fst (api_geo rt w1 req st1) = fst (api_geo rt w2 req st2) \/
   fst (api_geo rt w1 req st1) = Normal (SendJson 500 json_not_ok) \/
   fst (api_geo rt w2 req st2) = Normal (SendJson 500 json_not_ok)).
Proof.
  split.
  - intros Hid.
    destruct (track_outcome rt w1 req st1)
      as [[e [He Hrun1]] | [raw [d [st1' [Hraw [Hd [Hrun1 _]]]]]]];
    destruct (track_outcome rt w2 req st2)
      as [[e' [He' Hrun2]] | [raw' [d' [st2' [Hraw' [Hd' [Hrun2 _]]]]]]];
    rewrite Hrun1, Hrun2; simpl; try congruence.
    assert (raw' = raw) by congruence. subst raw'.
    assert (d' = d) by congruence. subst d'. rewrite Hid. reflexivity.
  - destruct (truthy_string (cid_of req)) as [cid|] eqn:Hcid.
    + pose proof (geo_params_outcome rt w1 w2 cid (req_body req)) as Hout.
      destruct (geo_params rt w1 cid (req_body req)) as [p1|e1] eqn:Hp1;
        destruct (geo_params rt w2 cid (req_body req)) as [p2|e2] eqn:Hp2;
        try contradiction.
      * rewrite (api_geo_run rt w1 req st1 cid p1 Hcid Hp1).
        rewrite (api_geo_run rt w2 req st2 cid p2 Hcid Hp2).
        destruct (sql_fault w1 (CallUpdate p1));
          destruct (sql_fault w2 (CallUpdate p2)); simpl; auto.
      * rewrite (api_geo_throw rt w1 req st1 cid e1 Hcid Hp1).
        rewrite (api_geo_throw rt w2 req st2 cid e2 Hcid Hp2).
        left. simpl. congruence.
    + left. unfold api_geo. rewrite Hcid. reflexivity.
Qed.

(** The sample enrichment is answered alike on the table that holds its
    click and on the empty table; a click is answered alike by a working
    engine and by one that refuses every statement. *)
Lemma answers_depend_on_engine_only_through_failure_witness :
  fst (api_geo sample_runtime sample_world
         (geo_request sample_id example_payload) one_click_store)
  = fst (api_geo sample_runtime sample_world
           (geo_request sample_id example_payload) empty_store) /\
  fst (track sample_runtime sample_world empty_request one_click_store)
  = fst (track sample_runtime (faulty_world (fun _ => true)) empty_request
           empty_store).
Proof.
  split.
  - destruct (answers_depend_on_engine_only_through_failure sample_runtime
                (geo_request sample_id example_payload)
                sample_world sample_world one_click_store empty_store)
      as [_ [H | [H | H]]].
    + exact H.
    + vm_compute in H. discriminate.
    + vm_compute in H. discriminate.
  - destruct (answers_depend_on_engine_only_through_failure sample_runtime
                empty_request sample_world (faulty_world (fun _ => true))
                one_click_store empty_store) as [H _].
    apply H. reflexivity.
Defined.
